(** * Resilient calls and event propagation in the orders and users services

    A shallow embedding of the JavaScript sources of the two services:
    the orders service (retrier [fetchWithBackoff], [callUserService],
    the circuit breaker's fallback, the event consumer and the HTTP
    routes) and the users service (the route that creates a user and
    publishes the event the orders service consumes).

    Every handler is an [async] function that reads and writes module
    level state, calls the outside world and may throw.  It is embedded
    as a computation of the monad [M]: explicit state passing over
    [State], a completion that is either a value or a thrown [Error],
    and the outside world (upstream service, database, broker, random
    numbers) as oracles of [Env] that are consulted in order. *)

From Stdlib Require Import ZArith QArith Qround String List Lia.
From stdpp Require Import gmap strings pretty.
Import ListNotations.
Open Scope Z_scope.
Set Warnings "-register-all".

(** ** JavaScript values *)

(** What [JSON.parse], [express.json()], [resp.json()] and Prisma hand to
    the code.  Numbers are the integers: the code never computes with a
    number of a payload, it only tests, stores and forwards it. *)
Inductive JSON : Type :=
| JNull
| JBool (b : bool)
| JNum (n : Z)
| JStr (s : string)
| JArr (elems : list JSON)
| JObj (props : list (string * JSON)).

(** A JavaScript value of the handlers: [None] is [undefined]. *)
Definition Value : Type := option JSON.

(** A value as a [Map] key.  [Map] compares keys with SameValueZero:
    primitives by value, arrays and objects by identity. *)
Inductive JSKey : Type :=
| KUndefined
| KNull
| KBool (b : bool)
| KNum (n : Z)
| KStr (s : string)
| KRef (address : nat).

#[global] Instance JSKey_eq_dec : EqDecision JSKey.
Proof. solve_decision. Defined.

#[global] Instance JSKey_countable : Countable JSKey.
Proof.
  refine (inj_countable'
    (fun k => match k with
              | KUndefined => inl (inl tt)
              | KNull => inl (inr tt)
              | KBool b => inr (inl b)
              | KNum n => inr (inr (inl n))
              | KStr s => inr (inr (inr (inl s)))
              | KRef a => inr (inr (inr (inr a)))
              end)
    (fun c => match c with
              | inl (inl _) => KUndefined
              | inl (inr _) => KNull
              | inr (inl b) => KBool b
              | inr (inr (inl n)) => KNum n
              | inr (inr (inr (inl s))) => KStr s
              | inr (inr (inr (inr a))) => KRef a
              end) _).
  by intros [].
Defined.

(** The values a handler can throw. *)
Inductive Error : Type :=
| ReferenceError (identifier : string)
    (* reading an identifier that no scope binds *)
| TypeError (property : string)
    (* reading a property of null or undefined *)
| SyntaxError
    (* JSON.parse on text that is not JSON *)
| ServerStatusError (status : Z)
    (* new Error(`Users service (servidor) falhou com status ${res.status}`) *)
| ServiceUnavailableError
    (* the fallback's Error, with err.code = 'SERVICE_UNAVAILABLE' *)
| LibraryError (code : string) (message : string).
    (* thrown by node-fetch, amqplib, Prisma or the breaker itself *)

(** [err.code] *)
Definition code (e : Error) : option string :=
  match e with
  | ServiceUnavailableError => Some "SERVICE_UNAVAILABLE"%string
  | LibraryError c _ => Some c
  | _ => None
  end.

(** [err.message]; for the errors the engine raises itself the wording
    is V8's, with null and undefined not told apart. *)
Definition message (e : Error) : string :=
  match e with
  | ReferenceError x => x +:+ " is not defined"
  | TypeError p => "Cannot read properties of undefined (reading '" +:+ p +:+ "')"
  | SyntaxError => "Unexpected token in JSON"
  | ServerStatusError s => "Users service (servidor) falhou com status " +:+ pretty s
  | ServiceUnavailableError => "Serviço indisponível e usuário não encontrado no cache"
  | LibraryError _ m => m
  end%string.

(** How an evaluation ends: with a value, or with a thrown error (for an
    [async] function: the promise resolves or rejects). *)
Inductive Completion (A : Type) : Type :=
| Normal (a : A)
| Throw (e : Error).
Arguments Normal {A} a.
Arguments Throw {A} e.

(** ** The outside world *)

(** An upstream HTTP response: its status and what [resp.json()] gives. *)
Record Response : Type := {
  status : Z;
  json : Completion JSON
}.

(** [resp.ok] *)
Definition ok (resp : Response) : bool :=
  (200 <=? status resp) && (status resp <? 300).

Inductive BreakerState : Type := CLOSED | OPEN | HALF_OPEN.

(** What the breaker library decides on its own for one [fire]: its state
    when the call arrives, and whether its timer expires before the wrapped
    function settles.  Both follow from the library's rolling statistics
    and timers, which the sources do not contain. *)
Record Gate : Type := {
  gate_state : BreakerState;
  timer_expires : bool
}.

(** A connection to the broker, as [amqplib.connect] resolves to. *)
Inductive Connection : Type := Conn (id : nat).

(** The constants of [../common/events.js], a file the sources do not
    contain: they are taken as given. *)
Record RoutingKeys : Type := {
  USER_CREATED : string;
  USER_UPDATED : string;
  ORDER_CREATED : string;
  ORDER_CANCELLED : string
}.

(** The configuration ([process.env], with its defaults applied) and the
    answers of the outside world.  The n-th call of a kind gets the n-th
    answer of its oracle. *)
Record Env : Type := {
  USERS_BASE_URL : string;
  HTTP_TIMEOUT_MS : Z;
  EXCHANGE : string;
  ROUTING_KEYS : RoutingKeys;
  net : nat -> Completion Response;
    (* fetch(url, { signal }) raced against the abort timer *)
  random : nat -> Q;
    (* Math.random() *)
  nanoid : nat -> string;
  prisma : nat -> Completion JSON;
  broker : nat -> option Error;
    (* amqp.ch.publish(...): returns, or throws *)
  breaker : nat -> Gate;
  connect : nat -> Completion Connection
    (* amqplib.connect(url) *)
}.

Inductive Oracle : Type :=
| ONet | ORandom | ONanoid | OPrisma | OBroker | OBreaker | OConnect.

Definition same_oracle (a b : Oracle) : bool :=
  match a, b with
  | ONet, ONet | ORandom, ORandom | ONanoid, ONanoid
  | OPrisma, OPrisma | OBroker, OBroker | OBreaker, OBreaker
  | OConnect, OConnect => true
  | _, _ => false
  end.

(** ** Observable effects *)

(** The URL `${USERS_BASE_URL}/${userId}`. *)
Definition Url : Type := (string * JSKey)%type.

(** The lines the services write to the console, by the statement that
    writes them. *)
Inductive LogLine : Type :=
| LConsumed (id : Value)
| LConsumeError (e : Error)
| LFetchFailed (url : Url) (attempt : nat)
| LAllAttemptsFailed
| LRetryIn (ms : Z)
| LFallback (userId : JSKey)
| LPublished (routingKey : string) (what : Value)
| LPublishError (e : Error)
| LDbError (e : Error)
| LAmqpConnected
| LAmqpGivingUp
| LAmqpRetryIn (ms : Z).

Inductive DbCall : Type :=
| OrderFindMany
| OrderCreate (data : JSON)
| OrderUpdate (where_id : string) (data : JSON)
| UserCreate (data : JSON).

Inductive Effect : Type :=
| Log (line : LogLine)
| Fetch (url : Url) (ms : Z)
| Connect (url : string)
| Sleep (ms : Z)
| Ack (deliveryTag : nat)
| Nack (deliveryTag : nat) (allUpTo requeue : bool)
| Publish (exchange routingKey : string) (payload : JSON) (persistent : bool)
| Db (call : DbCall) (result : Completion JSON)
| Respond (statusCode : JSON) (body : JSON).

(** ** Program state *)

Record State : Type := mkState {
  userCache : gmap JSKey JSON;
    (* const userCache = new Map() *)
  amqp : bool;
    (* whether amqp?.ch is there: the broker connection was made *)
  heap : nat;
    (* the identity the next parsed array or object gets *)
  asked : Oracle -> nat;
    (* how many answers of each oracle were used *)
  effects : list Effect
    (* what the process did so far, oldest first *)
}.

Definition with_userCache (c : gmap JSKey JSON) (st : State) : State :=
  mkState c (amqp st) (heap st) (asked st) (effects st).

Definition with_heap (h : nat) (st : State) : State :=
  mkState (userCache st) (amqp st) h (asked st) (effects st).

Definition with_asked (a : Oracle -> nat) (st : State) : State :=
  mkState (userCache st) (amqp st) (heap st) a (effects st).

Definition with_effects (l : list Effect) (st : State) : State :=
  mkState (userCache st) (amqp st) (heap st) (asked st) l.

(** ** The monad of handlers *)

Definition M (A : Type) : Type := Env -> State -> Completion A * State.

Definition ret {A} (a : A) : M A := fun _ st => (Normal a, st).

Definition throw {A} (e : Error) : M A := fun _ st => (Throw e, st).

Definition bind {A B} (m : M A) (k : A -> M B) : M B :=
  fun env st =>
    match m env st with
    | (Normal a, st') => k a env st'
    | (Throw e, st') => (Throw e, st')
    end.

(** try { m } catch (e) { handler e } *)
Definition try_catch {A} (m : M A) (handler : Error -> M A) : M A :=
  fun env st =>
    match m env st with
    | (Normal a, st') => (Normal a, st')
    | (Throw e, st') => handler e env st'
    end.

(** Runs [m] and hands back its completion instead of throwing: how a
    caller that holds the promise sees it. *)
Definition settle {A} (m : M A) : M (Completion A) :=
  fun env st => let (c, st') := m env st in (Normal c, st').

Declare Scope prog_scope.
Delimit Scope prog_scope with prog.
Bind Scope prog_scope with M.

Notation "x <- c ;; k" := (bind c (fun x => k))
  (at level 100, c at next level, right associativity) : prog_scope.
Notation "c ;; k" := (bind c (fun _ => k))
  (at level 100, right associativity) : prog_scope.

Definition config {A} (field : Env -> A) : M A :=
  fun env st => (Normal (field env), st).

Definition emit (e : Effect) : M unit :=
  fun _ st => (Normal tt, with_effects (effects st ++ [e]) st).

Definition log (line : LogLine) : M unit := emit (Log line).

(** The state once one more answer of oracle [o] is used. *)
Definition used (o : Oracle) (st : State) : State :=
  with_asked (fun o' => if same_oracle o' o then S (asked st o') else asked st o') st.

(** The next answer of an oracle. *)
Definition ask {A} (o : Oracle) (answers : Env -> nat -> A) : M A :=
  fun env st => (Normal (answers env (asked st o)), used o st).

(** An identifier that no enclosing scope binds: reading it throws. *)
Definition unbound {A} (identifier : string) : M A :=
  throw (ReferenceError identifier).

(** ** Operations on values *)

Fixpoint lookup_prop (name : string) (props : list (string * JSON)) : Value :=
  match props with
  | [] => None
  | (k, v) :: rest => if String.eqb k name then Some v else lookup_prop name rest
  end.

(** The property [name] of a value that is not null, for a name that no
    prototype defines ([id], [error], [status], [userId], ...): an object
    has it or not, a primitive or an array has no such property. *)
Definition field (v : JSON) (name : string) : Value :=
  match v with
  | JObj props => lookup_prop name props
  | _ => None
  end.

(** [v.name]: reading a property of null or undefined throws. *)
Definition prop (v : Value) (name : string) : M Value :=
  match v with
  | None | Some JNull => throw (TypeError name)
  | Some j => ret (field j name)
  end.

(** Truthiness, as [if (v)], [!v] and [v || w] test it. *)
Definition truthy (v : Value) : bool :=
  match v with
  | None | Some JNull => false
  | Some (JBool b) => b
  | Some (JNum n) => negb (n =? 0)
  | Some (JStr s) => negb (String.eqb s "")
  | Some (JArr _) | Some (JObj _) => true
  end.

(** [Array.isArray(v)] *)
Definition isArray (v : Value) : bool :=
  match v with Some (JArr _) => true | _ => false end.

(** [typeof v === 'number'] *)
Definition isNumber (v : Value) : bool :=
  match v with Some (JNum _) => true | _ => false end.

(** Whether a value is compared by identity when it is a [Map] key. *)
Definition isObject (v : Value) : bool :=
  match v with Some (JArr _) | Some (JObj _) => true | _ => false end.

(** The key a value is under SameValueZero.  A primitive is its own key.
    An array or an object that was just parsed is a new object, which no
    earlier key equals: it gets the next identity of the heap. *)
Definition identity (v : Value) : M JSKey :=
  match v with
  | None => ret KUndefined
  | Some JNull => ret KNull
  | Some (JBool b) => ret (KBool b)
  | Some (JNum n) => ret (KNum n)
  | Some (JStr s) => ret (KStr s)
  | Some (JArr _) | Some (JObj _) =>
      fun _ st => (Normal (KRef (heap st)), with_heap (S (heap st)) st)
  end.

(** [v || d], for a default [d] that is a JSON value. *)
Definition or_default (v : Value) (d : JSON) : JSON :=
  match v with
  | Some j => if truthy v then j else d
  | None => d
  end.

(** An object literal as it is stored or sent: a property whose value is
    [undefined] is left out by JSON.stringify. *)
Fixpoint object (fields : list (string * Value)) : JSON :=
  match fields with
  | [] => JObj []
  | (k, Some v) :: rest =>
      match object rest with
      | JObj props => JObj ((k, v) :: props)
      | other => other
      end
  | (_, None) :: rest => object rest
  end.

(** ** Calls to the outside world *)

(** [await] of a promise that has settled. *)
Definition await {A} (c : Completion A) : M A :=
  match c with
  | Normal a => ret a
  | Throw e => throw e
  end.

(** [Math.random()] *)
Definition Math_random : M Q := ask ORandom random.

(** A call of the Prisma client: it resolves or rejects as the database
    answers, and the call is on record with its answer. *)
Definition prisma_call (call : DbCall) : M JSON :=
  (answer <- ask OPrisma prisma ;;
   emit (Db call answer) ;;
   await answer)%prog.

(** amqp.ch.publish(EXCHANGE, routingKey, Buffer.from(JSON.stringify(payload)),
    { persistent: true }) *)
Definition publish (routingKey : string) (payload : JSON) : M unit :=
  (exchange <- config EXCHANGE ;;
   answer <- ask OBroker broker ;;
   match answer with
   | Some e => throw e
   | None => emit (Publish exchange routingKey payload true)
   end)%prog.

(** [amqp?.ch] as a condition *)
Definition amqp_ch : M bool := fun _ st => (Normal (amqp st), st).

(** res.status(statusCode).json(body) *)
Definition respond (statusCode : JSON) (body : JSON) : M unit :=
  emit (Respond statusCode body).

(** An HTTP request, as far as the routes read it. *)
Record Request : Type := {
  body : Value;
  params_id : string
}.

(** ** The connection supervisor (amqp.js) *)

Module Amqp.

Definition MAX_RETRIES : nat := 10.
Definition BASE_RETRY_DELAY_MS : Z := 5000.

(** The loop [for (let retries = 0; retries < MAX_RETRIES; retries++)] of
    [connectWithRetry], by the number of iterations that remain.  Here
    the [catch] parameter is [err], and [throw err] throws it. *)
Fixpoint reconnect (remaining retries : nat) (url : string) : M (option Connection) :=
  match remaining with
  | O => ret None
  | S remaining' =>
      (returned <-
         try_catch
           (emit (Connect url) ;;
            answer <- ask OConnect connect ;;
            conn <- await answer ;;
            log LAmqpConnected ;;
            ret (Some conn))
           (fun err =>
              (if Nat.eqb retries (MAX_RETRIES - 1)
               then (log LAmqpGivingUp ;; throw err)
               else ret tt) ;;
              let delay := BASE_RETRY_DELAY_MS * 2 ^ Z.of_nat retries in
              r <- Math_random ;;
              let jitter := Qfloor (r * 1000) in
              log (LAmqpRetryIn (delay + jitter)) ;;
              emit (Sleep (delay + jitter)) ;;
              ret None) ;;
       match returned with
       | Some conn => ret (Some conn)
       | None => reconnect remaining' (S retries) url
       end)%prog
  end.

Definition connectWithRetry (url : string) : M (option Connection) :=
  reconnect MAX_RETRIES 0 url.

End Amqp.

(** ** The orders service *)

Module Orders.

Definition BASE_HTTP_RETRY_DELAY : Z := 500.
Definition MAX_HTTP_RETRIES : nat := 3.

(** [userCache.set(k, v)], [userCache.has(k)], [userCache.get(k)] *)
Definition userCache_set (k : JSKey) (v : JSON) : M unit :=
  fun _ st => (Normal tt, with_userCache (<[k := v]> (userCache st)) st).

Definition userCache_has (k : JSKey) : M bool :=
  fun _ st => (Normal (bool_decide (is_Some (userCache st !! k))), st).

Definition userCache_get (k : JSKey) : M Value :=
  fun _ st => (Normal (userCache st !! k), st).

(** *** The event consumer *)

(** What [JSON.parse(msg.content.toString())] makes of a message's
    content: it is not JSON, or it is the text of a JSON value. *)
Inductive Content : Type :=
| Malformed
| Json (v : JSON).

Record Message : Type := {
  content : Content;
  deliveryTag : nat
}.

Definition JSON_parse (c : Content) : M JSON :=
  match c with
  | Malformed => throw SyntaxError
  | Json v => ret v
  end.

(** The callback of [amqp.ch.consume(QUEUE, msg => ...)]; the broker
    calls it with [null] when it cancels the consumer. *)
Definition consume (msg : option Message) : M unit :=
  match msg with
  | None => ret tt
  | Some msg =>
      try_catch
        (user <- JSON_parse (content msg) ;;
         id <- prop (Some user) "id" ;;
         key <- identity id ;;
         userCache_set key user ;;
         log (LConsumed id) ;;
         emit (Ack (deliveryTag msg)))
        (fun err =>
           log (LConsumeError err) ;;
           emit (Nack (deliveryTag msg) false false))
  end%prog.

(** *** The retrier *)

(** The [try] block of the loop: one [fetch] under the abort timer, and
    the test of the status. *)
Definition attempt (url : Url) (ms : Z) : M Response :=
  (emit (Fetch url ms) ;;
   answer <- ask ONet net ;;
   res <- await answer ;;
   if 500 <=? status res
   then throw (ServerStatusError (status res))
   else ret res)%prog.

(** The loop [for (let retries = 0; retries < MAX_HTTP_RETRIES; retries++)],
    by the number of iterations that remain.  An iteration returns the
    response ([Some res]), goes on to the next iteration ([None]) or
    throws.  The [catch] parameter is [error]; the [throw] statement
    names [err], which nothing binds there.  A loop that ends without
    returning makes the function return [undefined]. *)
Fixpoint retry (remaining retries : nat) (url : Url) (ms : Z) : M (option Response) :=
  match remaining with
  | O => ret None
  | S remaining' =>
      (returned <-
         try_catch
           (res <- attempt url ms ;;
            ret (Some res))
           (fun error =>
              log (LFetchFailed url (retries + 1)) ;;
              (if Nat.eqb retries (MAX_HTTP_RETRIES - 1)
               then (log LAllAttemptsFailed ;;
                     err <- unbound "err" ;;
                     throw err)
               else ret tt) ;;
              let delay := BASE_HTTP_RETRY_DELAY * 2 ^ Z.of_nat retries in
              r <- Math_random ;;
              let jitter := Qfloor (r * 200) in
              log (LRetryIn (delay + jitter)) ;;
              emit (Sleep (delay + jitter)) ;;
              ret None) ;;
       match returned with
       | Some res => ret (Some res)
       | None => retry remaining' (S retries) url ms
       end)%prog
  end.

Definition fetchWithBackoff (url : Url) (ms : Z) : M (option Response) :=
  retry MAX_HTTP_RETRIES 0 url ms.

Definition invalid_user (resp : Response) : JSON :=
  JObj [("error", JStr "usuário inválido"); ("status", JNum (status resp))]%string.

Definition callUserService (userId : JSKey) : M Value :=
  (base <- config USERS_BASE_URL ;;
   let url := (base, userId) in
   ms <- config HTTP_TIMEOUT_MS ;;
   resp <- fetchWithBackoff url ms ;;
   match resp with
   | None => throw (TypeError "ok")
   | Some resp =>
       if negb (ok resp)
       then ret (Some (invalid_user resp))
       else (user <- await (json resp) ;; ret (Some user))
   end)%prog.

(** *** The circuit breaker *)



(** The function given to [breaker.fallback]. *)
Definition fallback (userId : JSKey) : M Value :=
  (log (LFallback userId) ;;
   cached <- userCache_has userId ;;
   if cached
   then userCache_get userId
   else throw ServiceUnavailableError)%prog.

(** Modelled from the spec: [breaker.fire] is a method of the breaker
    library (opossum), which the sources do not contain; only the wrapped
    function, the options and the fallback are the repository's.  Its
    dispatch follows the spec's contract of [fire]: an open breaker
    short-circuits to the fallback without a network attempt; a closed or
    half-open one calls the wrapped function, and on any failure of it
    (it throws, or the breaker's timer expires first) invokes the fallback
    with the same argument; what the fallback returns or throws is what
    [fire] returns or throws. *)
Definition fire (userId : JSKey) : M Value :=
  (gate <- ask OBreaker breaker ;;
   match gate_state gate with
   | OPEN => fallback userId
   | CLOSED | HALF_OPEN =>
       outcome <- settle (callUserService userId) ;;
       match outcome, timer_expires gate with
       | Normal user, false => ret user
       | _, _ => fallback userId
       end
   end)%prog.

(** *** The routes *)

(** app.get('/health') *)
Definition health : M unit :=
  respond (JNum 200) (JObj [("ok", JBool true); ("service", JStr "orders")]%string).

(** app.get('/') *)
Definition list_orders : M unit :=
  (list <- prisma_call OrderFindMany ;;
   respond (JNum 200) list)%prog.

(** app.post('/').  The call of the breaker stands before the [try]
    block.  The outer [catch] binds [error] and reads [err]. *)
Definition post (req : Request) : M unit :=
  (let b := Some (or_default (body req) (JObj [])) in
   userId <- prop b "userId" ;;
   items <- prop b "items" ;;
   total <- prop b "total" ;;
   if negb (truthy userId) || negb (isArray items) || negb (isNumber total)
   then respond (JNum 400)
          (JObj [("error", JStr "userId, items[], total<number> são obrigatórios")]%string)
   else
     uid <- identity userId ;;
     user <- fire uid ;;
     user_error <- prop user "error" ;;
     if truthy user_error
     then
       user_status <- prop user "status" ;;
       respond (or_default user_status (JNum 400)) (object [("error", user_error)]%string)
     else
       suffix <- ask ONanoid nanoid ;;
       let id := ("o_" +:+ suffix)%string in
       try_catch
         (order <- prisma_call
                     (OrderCreate (object [("id", Some (JStr id)); ("userId", userId);
                                           ("items", items); ("total", total)]%string)) ;;
          try_catch
            (connected <- amqp_ch ;;
             if connected
             then
               keys <- config ROUTING_KEYS ;;
               publish (ORDER_CREATED keys) order ;;
               order_id <- prop (Some order) "id" ;;
               log (LPublished (ORDER_CREATED keys) order_id)
             else ret tt)
            (fun err => log (LPublishError err)) ;;
          respond (JNum 201) order)
         (fun error =>
            err <- unbound "err" ;;
            if bool_decide (code err = Some "SERVICE_UNAVAILABLE"%string)
            then respond (JNum 503) (JObj [("error", JStr (message err))]%string)
            else
              log (LDbError error) ;;
              respond (JNum 500) (JObj [("error", JStr "Could not create order")]%string)))%prog.

(** app.delete('/:id') *)
Definition cancel (req : Request) : M unit :=
  (let id := params_id req in
   try_catch
     (order <- prisma_call
                 (OrderUpdate id (JObj [("status", JStr "cancelled")]%string)) ;;
      try_catch
        (connected <- amqp_ch ;;
         if connected
         then
           keys <- config ROUTING_KEYS ;;
           publish (ORDER_CANCELLED keys) order ;;
           order_id <- prop (Some order) "id" ;;
           log (LPublished (ORDER_CANCELLED keys) order_id)
         else ret tt)
        (fun err => log (LPublishError err)) ;;
      respond (JNum 200) (JObj [("message", JStr "order cancelled"); ("id", JStr id)]%string))
     (fun error =>
        err <- unbound "err" ;;
        if bool_decide (code err = Some "P2025"%string)
        then respond (JNum 404) (JObj [("error", JStr "not found")]%string)
        else
          log (LDbError err) ;;
          respond (JNum 500) (JObj [("error", JStr "Could not delete order")]%string)))%prog.

(** *** The process *)

(** What the process is asked to do, one request or delivery at a time. *)
Inductive Op : Type :=
| Deliver (msg : option Message)
| GetHealth
| GetOrders
| PostOrder (req : Request)
| DeleteOrder (req : Request).

Definition handle (op : Op) : M unit :=
  match op with
  | Deliver msg => consume msg
  | GetHealth => health
  | GetOrders => list_orders
  | PostOrder req => post req
  | DeleteOrder req => cancel req
  end.

(** The operations of the synchronous call path: every one but a
    delivery to the consumer. *)
Definition synchronous (op : Op) : bool :=
  match op with
  | Deliver _ => false
  | _ => true
  end.

(** The state after a sequence of operations; an operation that throws
    leaves the state it reached. *)
Definition run (env : Env) (ops : list Op) (st : State) : State :=
  fold_left (fun st op => snd (handle op env st)) ops st.

End Orders.

(** ** The users service *)

Module Users.

(** app.post('/') *)
Definition post (req : Request) : M unit :=
  (let b := Some (or_default (body req) (JObj [])) in
   name <- prop b "name" ;;
   email <- prop b "email" ;;
   if negb (truthy name) || negb (truthy email)
   then respond (JNum 400) (JObj [("error", JStr "name and email are required")]%string)
   else
     suffix <- ask ONanoid nanoid ;;
     let id := ("u_" +:+ suffix)%string in
     try_catch
       (user <- prisma_call
                  (UserCreate (object [("id", Some (JStr id)); ("name", name);
                                       ("email", email)]%string)) ;;
        try_catch
          (connected <- amqp_ch ;;
           if connected
           then
             keys <- config ROUTING_KEYS ;;
             publish (USER_CREATED keys) user ;;
             log (LPublished (USER_CREATED keys) (Some user))
           else ret tt)
          (fun err => log (LPublishError err)) ;;
        respond (JNum 201) user)
       (fun error =>
          err <- unbound "err" ;;
          if bool_decide (code err = Some "P2002"%string)
          then respond (JNum 409) (JObj [("error", JStr "Email already exists")]%string)
          else
            log (LDbError err) ;;
            respond (JNum 500) (JObj [("error", JStr "Erro ao tentar criar usuário")]%string)))%prog.

End Users.

(** ** Reading the record of effects *)

(** The attempts (calls of [fetch] or of [amqplib.connect]) and the
    sleeps among some effects, in order. *)
Inductive Beat : Type :=
| Attempt
| Pause (ms : Z).

Fixpoint beats (l : list Effect) : list Beat :=
  match l with
  | [] => []
  | Fetch _ _ :: l' => Attempt :: beats l'
  | Connect _ :: l' => Attempt :: beats l'
  | Sleep ms :: l' => Pause ms :: beats l'
  | _ :: l' => beats l'
  end.

(** A first attempt, and then one more attempt after each pause. *)
Fixpoint schedule (pauses : list Z) : list Beat :=
  match pauses with
  | [] => [Attempt]
  | ms :: pauses' => Attempt :: Pause ms :: schedule pauses'
  end.



(** The responses sent to HTTP callers, in order. *)
Fixpoint responses (l : list Effect) : list (JSON * JSON) :=
  match l with
  | [] => []
  | Respond statusCode body :: l' => (statusCode, body) :: responses l'
  | _ :: l' => responses l'
  end.

(** The calls of the fallback, by the line it logs first. *)
Fixpoint fallbacks (l : list Effect) : list JSKey :=
  match l with
  | [] => []
  | Log (LFallback userId) :: l' => userId :: fallbacks l'
  | _ :: l' => fallbacks l'
  end.

(** A retryable fault of an attempt: [fetch] rejects (transport error,
    abort by the timer), or the response has a server-class status. What
    the [catch] block of the retrier then receives is [caught]. *)
Definition fault (answer : Completion Response) : bool :=
  match answer with
  | Throw _ => true
  | Normal res => 500 <=? status res
  end.

Definition caught (answer : Completion Response) : option Error :=
  match answer with
  | Throw e => Some e
  | Normal res => if 500 <=? status res then Some (ServerStatusError (status res)) else None
  end.

(** ** The vocabulary of the properties *)

Import Orders.

(** A computation keeps to itself: it leaves the cache and the broker
    connection as they are, and all it adds to the record are effects
    that satisfy [P]. *)
Definition appends (P : Effect -> Prop) {A} (m : M A) : Prop :=
  forall env st, exists l,
    userCache (snd (m env st)) = userCache st /\
    amqp (snd (m env st)) = amqp st /\
    effects (snd (m env st)) = effects st ++ l /\
    Forall P l.

(** An effect other than a response to an HTTP caller. *)
Definition silent (e : Effect) : Prop :=
  match e with
  | Respond _ _ => False
  | _ => True
  end.

Definition anything (e : Effect) : Prop := True.

(** The state after a call of [fetch]. *)
Definition fetched (url : Url) (ms : Z) (st : State) : State :=
  used ONet (with_effects (effects st ++ [Fetch url ms]) st).

(** What the [try] block of the retrier makes of the answer of [fetch]. *)
Definition checked (answer : Completion Response) : Completion Response :=
  match caught answer with
  | Some e => Throw e
  | None => answer
  end.

(** The sleep after the failure of the attempt with loop index [retries],
    when [Math.random()] gives [r]. *)
Definition delay_after (retries : nat) (r : Q) : Z :=
  BASE_HTTP_RETRY_DELAY * 2 ^ Z.of_nat retries + Qfloor (r * 200).

(** The state after a failed attempt that is not the last one. *)
Definition backed_off (retries : nat) (url : Url) (ms : Z) (env : Env) (st : State) : State :=
  let d := delay_after retries (random env (asked st ORandom)) in
  with_effects
    (effects st ++ [Fetch url ms; Log (LFetchFailed url (retries + 1));
                    Log (LRetryIn d); Sleep d])
    (used ORandom (used ONet st)).

(** The state after the failure of the last attempt. *)
Definition gave_up (retries : nat) (url : Url) (ms : Z) (st : State) : State :=
  with_effects
    (effects st ++ [Fetch url ms; Log (LFetchFailed url (retries + 1));
                    Log LAllAttemptsFailed])
    (used ONet st).

(** The sleep of [connectWithRetry] after the failure of the attempt with
    loop index [retries], when [Math.random()] gives [r]. *)
Definition reconnect_delay (retries : nat) (r : Q) : Z :=
  Amqp.BASE_RETRY_DELAY_MS * 2 ^ Z.of_nat retries + Qfloor (r * 1000).

(** The state after a refused connection that is not the last attempt. *)
Definition connection_retried (retries : nat) (url : string) (env : Env) (st : State) : State :=
  let d := reconnect_delay retries (random env (asked st ORandom)) in
  with_effects
    (effects st ++ [Connect url; Log (LAmqpRetryIn d); Sleep d])
    (used ORandom (used OConnect st)).

(** The state after the last attempt was refused. *)
Definition connection_given_up (url : string) (st : State) : State :=
  with_effects (effects st ++ [Connect url; Log LAmqpGivingUp]) (used OConnect st).

(** A [fire] ends on a failure path: the breaker is open, or the wrapped
    call throws (its retries are exhausted, or it fails otherwise), or
    the breaker's timer expires. *)
Definition failure_path (userId : JSKey) (env : Env) (st : State) : Prop :=
  gate_state (breaker env (asked st OBreaker)) = OPEN \/
  (exists e, fst (callUserService userId env (used OBreaker st)) = Throw e) \/
  timer_expires (breaker env (asked st OBreaker)) = true.

(** A property of the body of a request, as the routes destructure it
    from [req.body || {}]. *)
Definition requested (req : Request) (name : string) : Value :=
  field (or_default (body req) (JObj [])) name.

(** The request passes the validation of app.post('/') of the orders
    service. *)
Definition valid_order (req : Request) : Prop :=
  truthy (requested req "userId") = true /\
  isArray (requested req "items") = true /\
  isNumber (requested req "total") = true.

(** What the publish block of a route leaves on record, by the answer of
    the broker: the message and the line that reports it, or the line
    that reports the error. *)
Definition publish_record (env : Env) (routingKey : string) (payload : JSON)
    (reported : Value) (answer : option Error) : list Effect :=
  match answer with
  | None => [Publish (EXCHANGE env) routingKey payload true; Log (LPublished routingKey reported)]
  | Some e => [Log (LPublishError e)]
  end.

(** The consumer applied the message: its payload [v] is in the cache
    under the key of its [id], and the message was then acknowledged. *)
Definition applied (msg : Message) (v : JSON) (env : Env) (st : State) : Prop :=
  let st' := snd (consume (Some msg) env st) in
  (exists key,
     fst (identity (field v "id") env st) = Normal key /\
     userCache st' = <[key := v]> (userCache st)) /\
  effects st' = effects st ++ [Log (LConsumed (field v "id")); Ack (deliveryTag msg)].

(** The consumer discarded the message: it rejected it without requeue,
    after logging the error, and the cache is as it was. *)
Definition discarded (msg : Message) (env : Env) (st : State) : Prop :=
  let st' := snd (consume (Some msg) env st) in
  userCache st' = userCache st /\
  exists e,
    effects st' = effects st ++ [Log (LConsumeError e); Nack (deliveryTag msg) false false].

(** The handler returns: it throws nothing into the broker library. *)
Definition survived (msg : Message) (env : Env) (st : State) : Prop :=
  fst (consume (Some msg) env st) = Normal tt.

(** Every content that parses is applied, every other is discarded. *)
Definition applies_whatever_parses (msg : Message) (env : Env) (st : State) : Prop :=
  match content msg with
  | Json v => applied msg v env st
  | Malformed => discarded msg env st
  end /\ survived msg env st.


(** ** Scenarios *)

Module Scenario.

Definition keys : RoutingKeys :=
  {| USER_CREATED := "user.created";
     USER_UPDATED := "user.updated";
     ORDER_CREATED := "order.created";
     ORDER_CANCELLED := "order.cancelled" |}.

Definition refused : Error := LibraryError "ECONNREFUSED" "connect ECONNREFUSED".

Definition broker_closed : Error := LibraryError "" "Channel closed".

Definition order_row : JSON :=
  JObj [("id", JStr "o_V1StGX"); ("userId", JStr "u_1"); ("items", JArr []);
        ("total", JNum 10); ("status", JStr "created")]%string.

Definition u_1 : JSON :=
  JObj [("id", JStr "u_1"); ("name", JStr "Ana"); ("email", JStr "ana@example.com")]%string.

Definition not_found : JSON := JObj [("error", JStr "not found")]%string.

(** A world with the default configuration, in which the upstream
    service answers as given, the database accepts every call and
    answers with the row given, the broker throws on every publish and
    refuses every new connection, and the breaker is closed and its
    timer does not expire. *)
Definition world (answers : nat -> Completion Response) (row : JSON) : Env :=
  {| USERS_BASE_URL := "http://ms_users:3001";
     HTTP_TIMEOUT_MS := 2000;
     EXCHANGE := "app.topic";
     ROUTING_KEYS := keys;
     net := answers;
     random := fun _ => (1 # 2)%Q;
     nanoid := fun _ => "V1StGX"%string;
     prisma := fun _ => Normal row;
     broker := fun _ => Some broker_closed;
     breaker := fun _ => {| gate_state := CLOSED; timer_expires := false |};
     connect := fun _ => Throw refused |}.

(** The orders service while the upstream service is unreachable: every
    attempt is refused. *)
Definition upstream_down : Env :=
  world (fun _ => Throw refused) order_row.

(** The orders service while the upstream service answers: two server
    errors, then the status and the body given. *)
Definition upstream_answers (statusCode : Z) (payload : JSON) : Env :=
  world (fun n =>
           if (n <? 2)%nat
           then Normal {| status := 503; json := Throw SyntaxError |}
           else Normal {| status := statusCode; json := Normal payload |})
    order_row.

(** The users service: it makes no upstream call. *)
Definition users_service : Env :=
  world (fun _ => Throw refused) u_1.

(** A process that has just started, with the broker connected. *)
Definition started : State :=
  mkState ∅ true 0 (fun _ => 0%nat) [].

(** The same process once the event of user [u_1] was consumed. *)
Definition warmed : State :=
  snd (consume (Some {| content := Json u_1; deliveryTag := 1 |}) upstream_down started).

Definition order_request (userId : string) : Request :=
  {| body := Some (JObj [("userId", JStr userId); ("items", JArr []); ("total", JNum 10)]%string);
     params_id := "" |}.

Definition user_request : Request :=
  {| body := Some (JObj [("name", JStr "Ana"); ("email", JStr "ana@example.com")]%string);
     params_id := "" |}.

Definition cancel_request : Request :=
  {| body := None; params_id := "o_V1StGX" |}.

End Scenario.

(** ** The other routes of the users service *)

Module UsersRoutes.

(** A call of the Prisma client that reads or updates a user.  The
    record of effects has entries for the writes of the orders service
    and for the creation of a user; these calls use the next answer of
    the database and leave no entry of their own. *)
Definition prisma_user : M JSON :=
  (answer <- ask OPrisma prisma ;;
   await answer)%prog.

(** prisma.user.findMany() *)
Definition findMany : M JSON := prisma_user.

(** prisma.user.findUnique({ where: { id } }) *)
Definition findUnique (id : string) : M JSON := prisma_user.

(** prisma.user.update({ where: { id }, data }) *)
Definition update (id : string) (data : JSON) : M JSON := prisma_user.

(** app.get('/health') *)
Definition health : M unit :=
  respond (JNum 200) (JObj [("ok", JBool true); ("service", JStr "users")]%string).

(** app.get('/') *)
Definition list_users : M unit :=
  (allUsers <- findMany ;;
   respond (JNum 200) allUsers)%prog.

(** app.get('/:id') *)
Definition get_user (req : Request) : M unit :=
  (user <- findUnique (params_id req) ;;
   if negb (truthy (Some user))
   then respond (JNum 404) (JObj [("error", JStr "not found")]%string)
   else respond (JNum 200) user)%prog.

(** app.patch('/:id').  The first [try] block declares [updated] with
    [const], so the name is bound in that block only.  Its [catch]
    clause returns from the handler for the codes P2025 and P2002 and
    falls through otherwise; [returned] tells the two apart.  The code
    after the block (a second publish block and a second response) reads
    [updated], which nothing binds there.  Every path that reaches the
    last statement has sent its response already, so the call of
    [res.status(200)] that comes before the read of [updated] changes
    nothing a caller sees. *)
Definition patch (req : Request) : M unit :=
  (let id := params_id req in
   let b := Some (or_default (body req) (JObj [])) in
   name <- prop b "name" ;;
   email <- prop b "email" ;;
   if negb (truthy name) || negb (truthy email)
   then respond (JNum 400) (JObj [("error", JStr "name and email are required")]%string)
   else
     returned <-
       try_catch
         (updated <- update id (object [("name", name); ("email", email)]%string) ;;
          try_catch
            (connected <- amqp_ch ;;
             if connected
             then
               keys <- config ROUTING_KEYS ;;
               publish (USER_UPDATED keys) updated ;;
               log (LPublished (USER_UPDATED keys) (Some updated))
             else ret tt)
            (fun error => log (LPublishError error)) ;;
          respond (JNum 200) updated ;;
          ret false)
         (fun error =>
            if bool_decide (code error = Some "P2025"%string)
            then (respond (JNum 404) (JObj [("error", JStr "not found")]%string) ;;
                  ret true)
            else if bool_decide (code error = Some "P2002"%string)
            then (respond (JNum 409)
                    (JObj [("error", JStr "Email already in use by another user")]%string) ;;
                  ret true)
            else (log (LPublishError error) ;;
                  respond (JNum 500) (JObj [("error", JStr "Não foi possível atualizar!")]%string) ;;
                  ret false)) ;;
     if returned
     then ret tt
     else
       try_catch
         (connected <- amqp_ch ;;
          if connected
          then
            updated <- unbound "updated" ;;
            keys <- config ROUTING_KEYS ;;
            publish (USER_UPDATED keys) updated ;;
            log (LPublished (USER_UPDATED keys) (Some updated))
          else ret tt)
         (fun error => log (LPublishError error)) ;;
       updated <- unbound "updated" ;;
       respond (JNum 200) updated)%prog.

(** What the users service is asked to do. *)
Inductive Op : Type :=
| GetHealth
| GetUsers
| PostUser (req : Request)
| GetUser (req : Request)
| PatchUser (req : Request).

Definition handle (op : Op) : M unit :=
  match op with
  | GetHealth => health
  | GetUsers => list_users
  | PostUser req => Users.post req
  | GetUser req => get_user req
  | PatchUser req => patch req
  end.

End UsersRoutes.

(** ** More vocabulary *)

(** The messages handed to the broker, in order. *)
Fixpoint publications (l : list Effect) : list (string * JSON) :=
  match l with
  | [] => []
  | Publish _ routingKey payload _ :: l' => (routingKey, payload) :: publications l'
  | _ :: l' => publications l'
  end.

(** A handler answers its caller when it returns and only then: what it
    adds to the record holds exactly one response when it returns
    normally, and none when it throws. *)
Definition answers {A} (m : M A) : Prop :=
  forall env st, exists l,
    effects (snd (m env st)) = effects st ++ l /\
    match fst (m env st) with
    | Normal _ => length (responses l) = 1%nat
    | Throw _ => responses l = []
    end.

(** A computation that sends no response and always throws. *)
Definition fails {A} (m : M A) : Prop :=
  appends silent m /\ forall env st, exists e, fst (m env st) = Throw e.

(** The request passes the validation of app.post('/') and of
    app.patch('/:id') of the users service. *)
Definition valid_user (req : Request) : Prop :=
  truthy (requested req "name") = true /\
  truthy (requested req "email") = true.

(** What the first publish block of app.patch('/:id') leaves on record
    for the row the update returned: nothing without a channel, else the
    record of a publish. *)
Definition first_record (env : Env) (st : State) (row : JSON) : list Effect :=
  if amqp st
  then publish_record env (USER_UPDATED (ROUTING_KEYS env)) row (Some row)
         (broker env (asked st OBroker))
  else [].

(** What the trailing publish block of that route leaves on record: with
    a channel, the read of [updated] throws inside its [try] block and
    the [catch] clause logs that; without one, nothing. *)
Definition trailing_record (st : State) : list Effect :=
  if amqp st then [Log (LPublishError (ReferenceError "updated"))] else [].



(** ** More scenarios *)

Module Cases.

Definition not_found_error : Error := LibraryError "P2025" "Record to update not found.".

Definition unique_error : Error := LibraryError "P2002" "Unique constraint failed".

(** A world as [Scenario.world] in which the database rejects every call
    with the error given. *)
Definition database_rejects (e : Error) : Env :=
  {| USERS_BASE_URL := "http://ms_users:3001";
     HTTP_TIMEOUT_MS := 2000;
     EXCHANGE := "app.topic";
     ROUTING_KEYS := Scenario.keys;
     net := fun n =>
              if (n <? 2)%nat
              then Normal {| status := 503; json := Throw SyntaxError |}
              else Normal {| status := 200; json := Normal Scenario.u_1 |};
     random := fun _ => (1 # 2)%Q;
     nanoid := fun _ => "V1StGX"%string;
     prisma := fun _ => Throw e;
     broker := fun _ => None;
     breaker := fun _ => {| gate_state := CLOSED; timer_expires := false |};
     connect := fun n => if (n <? 3)%nat then Throw Scenario.refused else Normal (Conn 1) |}.

(** A world in which the database and the broker accept every call. *)
Definition all_well (row : JSON) : Env :=
  {| USERS_BASE_URL := "http://ms_users:3001";
     HTTP_TIMEOUT_MS := 2000;
     EXCHANGE := "app.topic";
     ROUTING_KEYS := Scenario.keys;
     net := fun _ => Normal {| status := 200; json := Normal Scenario.u_1 |};
     random := fun _ => (1 # 2)%Q;
     nanoid := fun _ => "V1StGX"%string;
     prisma := fun _ => Normal row;
     broker := fun _ => None;
     breaker := fun _ => {| gate_state := CLOSED; timer_expires := false |};
     connect := fun n => if (n <? 3)%nat then Throw Scenario.refused else Normal (Conn 1) |}.

Definition patch_request : Request :=
  {| body := Some (JObj [("name", JStr "Ana B."); ("email", JStr "ana@example.com")]%string);
     params_id := "u_1" |}.

Definition u_2 : JSON :=
  JObj [("id", JStr "u_2"); ("name", JStr "Rui"); ("email", JStr "rui@example.com")]%string.

Definition u_1_renamed : JSON :=
  JObj [("id", JStr "u_1"); ("name", JStr "Ana B."); ("email", JStr "ana@example.com")]%string.

Definition delivery (v : JSON) (tag : nat) : Message :=
  {| content := Json v; deliveryTag := tag |}.

End Cases.

(** * Properties *)

(** ** What the synchronous call path leaves alone *)

Section Frame.

Variable P : Effect -> Prop.

Lemma appends_ret {A} (a : A) : appends P (ret a).
Proof. intros env st. exists []. cbn. rewrite app_nil_r. auto. Qed.

Lemma appends_throw {A} e : appends P (@throw A e).
Proof. intros env st. exists []. cbn. rewrite app_nil_r. auto. Qed.

Lemma appends_bind {A B} (m : M A) (k : A -> M B) :
  appends P m -> (forall a, appends P (k a)) -> appends P (bind m k).
Proof.
  intros Hm Hk env st. unfold bind.
  destruct (Hm env st) as (l1 & Hc & Ha & He & Hl).
  destruct (m env st) as [[a|e] st1]; cbn in *.
  - destruct (Hk a env st1) as (l2 & Hc2 & Ha2 & He2 & Hl2).
    exists (l1 ++ l2). rewrite Hc2, Ha2, He2, Hc, Ha, He, app_assoc.
    repeat split; auto. apply Forall_app; auto.
  - exists l1. auto.
Qed.

Lemma appends_try_catch {A} (m : M A) (h : Error -> M A) :
  appends P m -> (forall e, appends P (h e)) -> appends P (try_catch m h).
Proof.
  intros Hm Hk env st. unfold try_catch.
  destruct (Hm env st) as (l1 & Hc & Ha & He & Hl).
  destruct (m env st) as [[a|e] st1]; cbn in *.
  - exists l1. auto.
  - destruct (Hk e env st1) as (l2 & Hc2 & Ha2 & He2 & Hl2).
    exists (l1 ++ l2). rewrite Hc2, Ha2, He2, Hc, Ha, He, app_assoc.
    repeat split; auto. apply Forall_app; auto.
Qed.

Lemma appends_settle {A} (m : M A) : appends P m -> appends P (settle m).
Proof.
  intros Hm env st. unfold settle.
  destruct (Hm env st) as (l1 & H). destruct (m env st) as [c st1]. exists l1. exact H.
Qed.

Lemma appends_emit e : P e -> appends P (emit e).
Proof. intros H env st. exists [e]. cbn. repeat split; auto. Qed.

Lemma appends_ask {A} o (answers : Env -> nat -> A) : appends P (ask o answers).
Proof. intros env st. exists []. cbn. rewrite app_nil_r. auto. Qed.

Lemma appends_config {A} (f : Env -> A) : appends P (config f).
Proof. intros env st. exists []. cbn. rewrite app_nil_r. auto. Qed.

Lemma appends_await {A} (c : Completion A) : appends P (await c).
Proof. destruct c; [apply appends_ret | apply appends_throw]. Qed.

Lemma appends_prop v name : appends P (prop v name).
Proof. destruct v as [[]|]; first [apply appends_ret | apply appends_throw]. Qed.

Lemma appends_identity v : appends P (identity v).
Proof.
  destruct v as [[]|]; try apply appends_ret;
    intros env st; exists []; cbn; rewrite app_nil_r; auto.
Qed.

Lemma appends_has k : appends P (userCache_has k).
Proof. intros env st. exists []. cbn. rewrite app_nil_r. auto. Qed.

Lemma appends_get k : appends P (userCache_get k).
Proof. intros env st. exists []. cbn. rewrite app_nil_r. auto. Qed.

Lemma appends_amqp_ch : appends P amqp_ch.
Proof. intros env st. exists []. cbn. rewrite app_nil_r. auto. Qed.

Lemma appends_unbound {A} x : appends P (@unbound A x).
Proof. apply appends_throw. Qed.

Lemma appends_Math_random : appends P Math_random.
Proof. apply appends_ask. Qed.

End Frame.

Create HintDb appends.
#[local] Hint Resolve appends_unbound appends_Math_random : appends.
#[local] Hint Resolve appends_ret appends_throw appends_settle appends_ask appends_config
  appends_await appends_prop appends_identity appends_has appends_get appends_amqp_ch : appends.

Ltac appends_step :=
  lazymatch goal with
  | |- appends _ (bind _ _) => apply appends_bind; [ | intros ? ]
  | |- appends _ (try_catch _ _) => apply appends_try_catch; [ | intros ? ]
  | |- appends _ (emit _) => apply appends_emit; exact I
  | |- appends _ (log _) => apply appends_emit; exact I
  | |- appends _ (respond _ _) => apply appends_emit; exact I
  | |- appends _ (if ?b then _ else _) => destruct b
  | |- appends _ (match ?x with _ => _ end) => destruct x
  | |- appends _ (let _ := _ in _) => cbv zeta
  | |- _ => solve [ auto with appends ]
  end.
Ltac appends_auto := repeat appends_step.

Lemma appends_attempt url ms : appends silent (attempt url ms).
Proof. unfold attempt. appends_auto. Qed.

Lemma appends_retry remaining :
  forall retries url ms, appends silent (retry remaining retries url ms).
Proof.
  induction remaining as [|n IH]; intros; cbn [retry]; appends_auto.
  apply appends_attempt.
Qed.

Lemma appends_callUserService userId : appends silent (callUserService userId).
Proof. unfold callUserService, fetchWithBackoff. appends_auto. apply appends_retry. Qed.

Lemma appends_fallback userId : appends silent (fallback userId).
Proof. unfold fallback. appends_auto. Qed.

Lemma appends_fire userId : appends silent (fire userId).
Proof.
  unfold fire. appends_auto; try apply appends_fallback.
  all: apply appends_settle, appends_callUserService.
Qed.

Lemma appends_weaken (P Q : Effect -> Prop) {A} (m : M A) :
  (forall e, P e -> Q e) -> appends P m -> appends Q m.
Proof.
  intros HPQ Hm env st. destruct (Hm env st) as (l & H1 & H2 & H3 & H4).
  exists l. repeat split; auto. eapply Forall_impl; eauto.
Qed.

Lemma appends_prisma_call call : appends anything (prisma_call call).
Proof. unfold prisma_call. appends_auto. Qed.
Lemma appends_publish rk payload : appends anything (publish rk payload).
Proof. unfold publish. appends_auto. Qed.
#[local] Hint Resolve appends_prisma_call appends_publish : appends.

Lemma appends_post req : appends anything (post req).
Proof.
  unfold post. appends_auto.
  eapply appends_weaken; [ | apply appends_fire ]. unfold anything; auto.
Qed.

Lemma appends_cancel req : appends anything (cancel req).
Proof. unfold cancel. appends_auto. Qed.

Lemma appends_handle op : synchronous op = true -> appends anything (handle op).
Proof.
  destruct op; cbn; intros H; try discriminate.
  - unfold health. appends_auto.
  - unfold list_orders. appends_auto.
  - apply appends_post.
  - apply appends_cancel.
Qed.

(** ** Running the retrier *)

Lemma bind_normal {A B} (m : M A) (k : A -> M B) env st a st' :
  m env st = (Normal a, st') -> bind m k env st = k a env st'.
Proof. intros H. unfold bind. now rewrite H. Qed.

Lemma bind_throw {A B} (m : M A) (k : A -> M B) env st e st' :
  m env st = (Throw e, st') -> bind m k env st = (Throw e, st').
Proof. intros H. unfold bind. now rewrite H. Qed.

Lemma attempt_run url ms env st :
  attempt url ms env st = (checked (net env (asked st ONet)), fetched url ms st).
Proof.
  unfold attempt, checked, caught, fetched, bind, emit, ask, await; cbn.
  destruct (net env (asked st ONet)) as [res|e]; cbn; [ | reflexivity ].
  destruct (500 <=? status res); reflexivity.
Qed.

Lemma retry_returns remaining retries url ms env st res :
  net env (asked st ONet) = Normal res ->
  fault (Normal res) = false ->
  retry (S remaining) retries url ms env st = (Normal (Some res), fetched url ms st).
Proof.
  intros Hnet Hok. cbn [retry]. unfold bind at 1, try_catch, bind at 1.
  rewrite attempt_run, Hnet. unfold checked, caught. cbn in Hok. rewrite Hok.
  reflexivity.
Qed.

Lemma retry_backs_off remaining retries url ms env st :
  fault (net env (asked st ONet)) = true ->
  retries <> (MAX_HTTP_RETRIES - 1)%nat ->
  retry (S remaining) retries url ms env st =
  retry remaining (S retries) url ms env (backed_off retries url ms env st).
Proof.
  intros Hf Hne. cbn [retry]. unfold bind at 1, try_catch, bind at 1.
  rewrite attempt_run.
  assert (exists e, checked (net env (asked st ONet)) = Throw e) as [e ->].
  { unfold checked, caught. destruct (net env (asked st ONet)) as [res|e]; cbn in *.
    - rewrite Hf. eauto.
    - eauto. }
  apply Nat.eqb_neq in Hne. rewrite Hne.
  unfold backed_off, delay_after, fetched, used, Math_random, bind, log, emit, ask, ret; cbn.
  rewrite <- !app_assoc. cbn. reflexivity.
Qed.

Lemma retry_gives_up remaining url ms env st :
  fault (net env (asked st ONet)) = true ->
  retry (S remaining) (MAX_HTTP_RETRIES - 1) url ms env st =
  (Throw (ReferenceError "err"), gave_up (MAX_HTTP_RETRIES - 1) url ms st).
Proof.
  intros Hf. cbn [retry]. unfold bind at 1, try_catch, bind at 1.
  rewrite attempt_run.
  assert (exists e, checked (net env (asked st ONet)) = Throw e) as [e ->].
  { unfold checked, caught. destruct (net env (asked st ONet)) as [res|e]; cbn in *.
    - rewrite Hf. eauto.
    - eauto. }
  unfold gave_up, fetched, used, unbound, throw, bind, log, emit; cbn.
  rewrite <- !app_assoc. cbn. reflexivity.
Qed.

Lemma asked_backed_off retries url ms env st o :
  asked (backed_off retries url ms env st) o =
  match o with
  | ONet | ORandom => S (asked st o)
  | _ => asked st o
  end.
Proof. destruct o; reflexivity. Qed.

Lemma effects_backed_off retries url ms env st :
  effects (backed_off retries url ms env st) =
  effects st ++ [Fetch url ms; Log (LFetchFailed url (retries + 1));
                 Log (LRetryIn (delay_after retries (random env (asked st ORandom))));
                 Sleep (delay_after retries (random env (asked st ORandom)))].
Proof. reflexivity. Qed.

Lemma beats_app l1 l2 : beats (l1 ++ l2) = beats l1 ++ beats l2.
Proof.
  induction l1 as [|e l1 IH]; [ reflexivity | ].
  destruct e; cbn; rewrite ?IH; reflexivity.
Qed.

(** C3 (the code as it is).  When the upstream service answers
    MAX_HTTP_RETRIES attempts in a row with a retryable fault,
    [fetchWithBackoff] makes exactly MAX_HTTP_RETRIES attempts, with a
    sleep between two of them, and then throws.  What it throws is the
    ReferenceError of the unbound identifier [err], whatever the faults
    were: the error of the last attempt, which the [catch] block holds
    as [error], is not what reaches the caller. *)
Theorem fetchWithBackoff_exhausted env st url ms :
  (forall i, (i < MAX_HTTP_RETRIES)%nat -> fault (net env (asked st ONet + i)) = true) ->
  exists st' d1 d2 l,
    fetchWithBackoff url ms env st = (Throw (ReferenceError "err"), st') /\
    effects st' = effects st ++ l /\
    beats l = schedule [d1; d2].
Proof.
  intros Hfault. unfold fetchWithBackoff.
  assert (H0 := Hfault 0%nat). assert (H1 := Hfault 1%nat). assert (H2 := Hfault 2%nat).
  rewrite Nat.add_0_r in H0. rewrite Nat.add_1_r in H1.
  replace (asked st ONet + 2)%nat with (S (S (asked st ONet))) in H2 by lia.
  unfold MAX_HTTP_RETRIES in *.
  rewrite retry_backs_off by (auto; discriminate).
  rewrite retry_backs_off by (rewrite ?asked_backed_off; auto; discriminate).
  rewrite (retry_gives_up 0) by (rewrite ?asked_backed_off; auto).
  eexists _, _, _, _. split; [ reflexivity | ]. split.
  - unfold gave_up. cbn [effects with_effects used with_asked]. rewrite !effects_backed_off.
    rewrite <- !app_assoc. reflexivity.
  - reflexivity.
Qed.




(** ** The fallback and the breaker *)

Lemma fallback_cached userId entry env st :
  userCache st !! userId = Some entry ->
  fallback userId env st =
  (Normal (Some entry), with_effects (effects st ++ [Log (LFallback userId)]) st).
Proof.
  intros H. unfold fallback, bind, log, emit, userCache_has, userCache_get.
  cbn [userCache with_effects]. rewrite bool_decide_eq_true_2 by eauto.
  cbn [userCache with_effects]. rewrite H. reflexivity.
Qed.

Lemma fallback_uncached userId env st :
  userCache st !! userId = None ->
  fallback userId env st =
  (Throw ServiceUnavailableError, with_effects (effects st ++ [Log (LFallback userId)]) st).
Proof.
  intros H. unfold fallback, bind, log, emit, userCache_has, userCache_get.
  cbn [userCache with_effects]. rewrite bool_decide_eq_false_2; [ reflexivity | ].
  rewrite H.
  intros [x Hx]. discriminate.
Qed.

Lemma userCache_callUserService userId env st :
  userCache (snd (callUserService userId env st)) = userCache st.
Proof. destruct (appends_callUserService userId env st) as (l & H & _). exact H. Qed.

(** How [fire] runs, by the gate and the completion of the wrapped call. *)
Lemma fire_run userId env st :
  fire userId env st =
  let gate := breaker env (asked st OBreaker) in
  let called := callUserService userId env (used OBreaker st) in
  match gate_state gate with
  | OPEN => fallback userId env (used OBreaker st)
  | _ =>
      match fst called, timer_expires gate with
      | Normal user, false => (Normal user, snd called)
      | _, _ => fallback userId env (snd called)
      end
  end.
Proof.
  unfold fire, bind, ask, settle; cbn -[callUserService fallback].
  destruct (gate_state (breaker env (asked st OBreaker))); try reflexivity.
  all: destruct (callUserService userId env (used OBreaker st)) as [[user|e] st1];
    cbn -[callUserService fallback];
    try reflexivity; destruct (timer_expires _); reflexivity.
Qed.

(** C1.  When a [fire] ends on a failure path (breaker open, wrapped
    call failed, breaker timeout) and the cache has an entry for the id,
    [fire] returns that entry: no error surfaces, the underlying one
    included. *)
Theorem fire_failure_returns_cached env st userId entry :
  userCache st !! userId = Some entry ->
  failure_path userId env st ->
  fst (fire userId env st) = Normal (Some entry).
Proof.
  intros Hcached Hfail. rewrite fire_run. cbv zeta.
  pose proof (userCache_callUserService userId env (used OBreaker st)) as Hsame.
  cbn [userCache used with_asked] in Hsame.
  assert (forall st', userCache st' = userCache st ->
            fst (fallback userId env st') = Normal (Some entry)) as Hfb.
  { intros st' Hst'. rewrite (fallback_cached _ entry) by (rewrite Hst'; exact Hcached).
    reflexivity. }
  destruct Hfail as [Hopen | [[e He] | Htimer]].
  - rewrite Hopen. now apply Hfb.
  - rewrite He. destruct (gate_state _); now apply Hfb.
  - rewrite Htimer.
    destruct (gate_state _), (fst (callUserService userId env (used OBreaker st)));
      now apply Hfb.
Qed.

Lemma fire_failure_uncached env st userId :
  userCache st !! userId = None ->
  failure_path userId env st ->
  fst (fire userId env st) = Throw ServiceUnavailableError.
Proof.
  intros Hcached Hfail. rewrite fire_run. cbv zeta.
  pose proof (userCache_callUserService userId env (used OBreaker st)) as Hsame.
  cbn [userCache used with_asked] in Hsame.
  assert (forall st', userCache st' = userCache st ->
            fst (fallback userId env st') = Throw ServiceUnavailableError) as Hfb.
  { intros st' Hst'. rewrite fallback_uncached by (rewrite Hst'; exact Hcached).
    reflexivity. }
  destruct Hfail as [Hopen | [[e He] | Htimer]].
  - rewrite Hopen. now apply Hfb.
  - rewrite He. destruct (gate_state _); now apply Hfb.
  - rewrite Htimer.
    destruct (gate_state _), (fst (callUserService userId env (used OBreaker st)));
      now apply Hfb.
Qed.

(** ** Running the routes *)

Lemma bind_ret {A B} (a : A) (k : A -> M B) : bind (ret a) k = k a.
Proof. reflexivity. Qed.

Lemma prop_defined (v : JSON) name : v <> JNull -> prop (Some v) name = ret (field v name).
Proof. intros H. destruct v; try reflexivity. now destruct H. Qed.

Lemma or_default_not_null v d : d <> JNull -> or_default v d <> JNull.
Proof.
  intros Hd. unfold or_default. destruct v as [j|]; [ | exact Hd ].
  destruct (truthy (Some j)) eqn:Ht; [ | exact Hd ].
  intros ->. discriminate.
Qed.

Lemma post_validated req :
  valid_order req ->
  post req =
  (uid <- identity (requested req "userId") ;;
   user <- fire uid ;;
   user_error <- prop user "error" ;;
   if truthy user_error
   then
     user_status <- prop user "status" ;;
     respond (or_default user_status (JNum 400)) (object [("error", user_error)]%string)
   else
     suffix <- ask ONanoid nanoid ;;
     let id := ("o_" +:+ suffix)%string in
     try_catch
       (order <- prisma_call
                   (OrderCreate (object [("id", Some (JStr id));
                                         ("userId", requested req "userId");
                                         ("items", requested req "items");
                                         ("total", requested req "total")]%string)) ;;
        try_catch
          (connected <- amqp_ch ;;
           if connected
           then
             keys <- config ROUTING_KEYS ;;
             publish (ORDER_CREATED keys) order ;;
             order_id <- prop (Some order) "id" ;;
             log (LPublished (ORDER_CREATED keys) order_id)
           else ret tt)
          (fun err => log (LPublishError err)) ;;
        respond (JNum 201) order)
       (fun error =>
          err <- unbound "err" ;;
          if bool_decide (code err = Some "SERVICE_UNAVAILABLE"%string)
          then respond (JNum 503) (JObj [("error", JStr (message err))]%string)
          else
            log (LDbError error) ;;
            respond (JNum 500) (JObj [("error", JStr "Could not create order")]%string)))%prog.
Proof.
  intros (Hu & Hi & Ht). unfold post. cbv zeta.
  rewrite !prop_defined by (apply or_default_not_null; discriminate).
  rewrite !bind_ret. fold (requested req "userId") (requested req "items") (requested req "total").
  rewrite Hu, Hi, Ht. reflexivity.
Qed.

Lemma responses_app l1 l2 : responses (l1 ++ l2) = responses l1 ++ responses l2.
Proof.
  induction l1 as [|e l1 IH]; [ reflexivity | ].
  destruct e; cbn; rewrite ?IH; reflexivity.
Qed.

Lemma responses_silent l : Forall silent l -> responses l = [].
Proof.
  induction 1 as [|e l He _ IH]; [ reflexivity | ].
  destruct e; cbn; try exact IH. destruct He.
Qed.

(** C2 (the code as it is).  When the [fire] of a valid request ends on
    a failure path and the cache has no entry for the id, [fire] throws
    the error whose code is SERVICE_UNAVAILABLE, and app.post('/') ends
    with that error thrown out of the handler: [fire] is called before
    the [try] block that holds the 503 answer, so the handler sends no
    response at all. *)
Theorem post_unavailable_is_not_answered env st req uid st1 :
  valid_order req ->
  identity (requested req "userId") env st = (Normal uid, st1) ->
  userCache st !! uid = None ->
  failure_path uid env st1 ->
  exists st',
    post req env st = (Throw ServiceUnavailableError, st') /\
    code ServiceUnavailableError = Some "SERVICE_UNAVAILABLE"%string /\
    responses (effects st') = responses (effects st).
Proof.
  intros Hvalid Hid Hnone Hfail.
  rewrite (post_validated req Hvalid).
  rewrite (bind_normal _ _ _ _ _ _ Hid).
  assert (userCache st1 = userCache st /\ effects st1 = effects st) as [Hc1 He1].
  { destruct (appends_identity silent (requested req "userId") env st) as (l & Hc & _ & He & _).
    rewrite Hid in *. cbn in *.
    split; [ exact Hc | ].
    revert Hid. unfold identity. destruct (requested req "userId") as [[]|]; cbn;
      intros [= _ <-]; reflexivity. }
  pose proof (fire_failure_uncached env st1 uid) as Hfire.
  rewrite Hc1 in Hfire. specialize (Hfire Hnone Hfail).
  destruct (appends_fire uid env st1) as (l & _ & _ & Heff & Hsilent).
  destruct (fire uid env st1) as [c st2] eqn:Hrun. cbn in Hfire, Heff. subst c.
  exists st2. split; [ | split ].
  - apply (bind_throw _ _ _ _ _ _ Hrun).
  - reflexivity.
  - rewrite Heff, He1, responses_app, (responses_silent l Hsilent), app_nil_r. reflexivity.
Qed.

(** C4.  Nothing on the synchronous call path writes the cache: the
    retrier, [callUserService], the fallback and [fire] leave it as it
    is in every state, and so does every sequence of requests to the
    routes.  An operation after which the cache differs is a delivery
    to the consumer. *)
Theorem userCache_written_by_consumer_only env st :
  (forall url ms, userCache (snd (fetchWithBackoff url ms env st)) = userCache st) /\
  (forall userId, userCache (snd (callUserService userId env st)) = userCache st) /\
  (forall userId, userCache (snd (fallback userId env st)) = userCache st) /\
  (forall userId, userCache (snd (fire userId env st)) = userCache st) /\
  (forall ops, forallb synchronous ops = true -> userCache (run env ops st) = userCache st) /\
  (forall op, userCache (snd (handle op env st)) <> userCache st -> exists msg, op = Deliver msg).
Proof.
  split; [ | split; [ | split; [ | split; [ | split ] ] ] ].
  - intros url ms. now destruct (appends_retry MAX_HTTP_RETRIES 0%nat url ms env st) as (l & H & _).
  - intros userId. apply userCache_callUserService.
  - intros userId. now destruct (appends_fallback userId env st) as (l & H & _).
  - intros userId. now destruct (appends_fire userId env st) as (l & H & _).
  - intros ops. revert st. induction ops as [|op ops IH]; intros st Hsync; [ reflexivity | ].
    cbn in Hsync. apply andb_prop in Hsync as [Hop Hops].
    unfold run in *. cbn [fold_left]. rewrite IH by exact Hops.
    now destruct (appends_handle op Hop env st) as (l & H & _).
  - intros op Hchanged. destruct op as [msg| | | |]; [ now exists msg | .. ];
      destruct Hchanged;
      match goal with
      | |- userCache (snd (handle ?op env st)) = _ =>
          now destruct (appends_handle op eq_refl env st) as (l & H & _)
      end.
Qed.

Lemma identity_frame v env st k st1 :
  identity v env st = (Normal k, st1) ->
  userCache st1 = userCache st /\ amqp st1 = amqp st /\
  asked st1 = asked st /\ effects st1 = effects st.
Proof.
  unfold identity. destruct v as [[]|]; cbn; intros [= _ <-]; auto.
Qed.

Lemma fallbacks_app l1 l2 : fallbacks (l1 ++ l2) = fallbacks l1 ++ fallbacks l2.
Proof.
  induction l1 as [|e l1 IH]; [ reflexivity | ].
  destruct e; try destruct line; cbn; rewrite ?IH; reflexivity.
Qed.

Lemma retry_responds k :
  forall retries remaining url ms env st res,
    (retries + k < MAX_HTTP_RETRIES)%nat ->
    (k < remaining)%nat ->
    (forall i, (i < k)%nat -> fault (net env (asked st ONet + i)) = true) ->
    net env (asked st ONet + k) = Normal res ->
    fault (Normal res) = false ->
    exists st' pauses l,
      retry remaining retries url ms env st = (Normal (Some res), st') /\
      effects st' = effects st ++ l /\
      beats l = schedule pauses /\
      length pauses = k /\
      last l = Some (Fetch url ms) /\
      fallbacks l = [].
Proof.
  induction k as [|k IH]; intros retries remaining url ms env st res Hlt Hrem Hfaults Hnet Hok.
  - destruct remaining as [|remaining]; [ lia | ].
    rewrite Nat.add_0_r in Hnet.
    rewrite (retry_returns _ _ _ _ _ _ res) by assumption.
    exists (fetched url ms st), [], [Fetch url ms]. repeat split.
  - destruct remaining as [|remaining]; [ lia | ].
    rewrite retry_backs_off.
    2: { specialize (Hfaults 0%nat). rewrite Nat.add_0_r in Hfaults. apply Hfaults. lia. }
    2: { unfold MAX_HTTP_RETRIES in *. lia. }
    destruct (IH (S retries) remaining url ms env (backed_off retries url ms env st) res)
      as (st' & pauses & l & Hrun & Heff & Hbeats & Hlen & Hlast & Hfb).
    + lia.
    + lia.
    + intros i Hi. rewrite asked_backed_off. cbn.
      replace (S (asked st ONet + i)) with (asked st ONet + S i)%nat by lia.
      apply Hfaults. lia.
    + rewrite asked_backed_off. cbn.
      replace (S (asked st ONet + k)) with (asked st ONet + S k)%nat by lia. exact Hnet.
    + exact Hok.
    + set (d := delay_after retries (random env (asked st ORandom))) in *.
      exists st', (d :: pauses),
        ([Fetch url ms; Log (LFetchFailed url (retries + 1)); Log (LRetryIn d); Sleep d] ++ l).
      split; [ exact Hrun | ]. split; [ | split; [ | split; [ | split ] ] ].
      * rewrite Heff, effects_backed_off. fold d. now rewrite <- app_assoc.
      * cbn. now rewrite Hbeats.
      * cbn. now rewrite Hlen.
      * rewrite last_app, Hlast. reflexivity.
      * rewrite fallbacks_app, Hfb. reflexivity.
Qed.

Lemma callUserService_run userId env st :
  callUserService userId env st =
  bind (fetchWithBackoff (USERS_BASE_URL env, userId) (HTTP_TIMEOUT_MS env))
    (fun resp =>
       match resp with
       | None => throw (TypeError "ok")
       | Some resp =>
           if negb (ok resp)
           then ret (Some (invalid_user resp))
           else bind (await (json resp)) (fun user => ret (Some user))
       end) env st.
Proof. reflexivity. Qed.

(** C7.  The upstream service answers attempt k of a request with a
    client-class status (400 to 499), after k retryable faults, while
    the breaker lets the call through and its timer does not expire.
    Then the retrier returns that response at once (the k + 1 fetches
    and k sleeps before it are all it did, and the fetch is the last of
    them), [callUserService] maps it to the invalid-user result, the
    fallback is not called, and the route answers the HTTP caller with
    the upstream status and the error of that result. *)
Theorem client_status_is_invalid_user env st req uid st1 k res :
  valid_order req ->
  identity (requested req "userId") env st = (Normal uid, st1) ->
  gate_state (breaker env (asked st OBreaker)) <> OPEN ->
  timer_expires (breaker env (asked st OBreaker)) = false ->
  (k < MAX_HTTP_RETRIES)%nat ->
  (forall i, (i < k)%nat -> fault (net env (asked st ONet + i)) = true) ->
  net env (asked st ONet + k) = Normal res ->
  400 <= status res < 500 ->
  let url := (USERS_BASE_URL env, uid) in
  let ms := HTTP_TIMEOUT_MS env in
  exists pauses l st2 st',
    fetchWithBackoff url ms env (used OBreaker st1) = (Normal (Some res), st2) /\
    callUserService uid env (used OBreaker st1) = (Normal (Some (invalid_user res)), st2) /\
    effects st2 = effects st ++ l /\
    beats l = schedule pauses /\ length pauses = k /\
    last l = Some (Fetch url ms) /\
    fallbacks l = [] /\
    post req env st = (Normal tt, st') /\
    effects st' =
      effects st ++ l ++ [Respond (JNum (status res)) (JObj [("error", JStr "usuário inválido")]%string)].
Proof.
  intros Hvalid Hid Hgate Htimer Hk Hfaults Hnet Hstatus url ms.
  destruct (identity_frame _ _ _ _ _ Hid) as (Hc1 & Ha1 & Hq1 & He1).
  assert (fault (Normal res) = false) as Hok by (cbn; lia).
  destruct (retry_responds k 0 MAX_HTTP_RETRIES url ms env (used OBreaker st1) res)
    as (st2 & pauses & l & Hrun & Heff & Hbeats & Hlen & Hlast & Hfb).
  { lia. } { exact Hk. }
  { intros i Hi. cbn. rewrite Hq1. now apply Hfaults. }
  { cbn. rewrite Hq1. exact Hnet. }
  { exact Hok. }
  assert (callUserService uid env (used OBreaker st1) = (Normal (Some (invalid_user res)), st2))
    as Hcall.
  { rewrite callUserService_run. fold url ms. unfold fetchWithBackoff.
    rewrite (bind_normal _ _ _ _ _ _ Hrun).
    replace (ok res) with false by (unfold ok; lia). reflexivity. }
  assert (fire uid env st1 = (Normal (Some (invalid_user res)), st2)) as Hfire.
  { rewrite fire_run. cbv zeta. rewrite Hq1, Htimer, Hcall. cbn [fst snd].
    destruct (gate_state (breaker env (asked st OBreaker))); try reflexivity.
    now destruct Hgate. }
  exists pauses, l, st2.
  eexists. split; [ exact Hrun | ]. split; [ exact Hcall | ].
  split; [ rewrite Heff; cbn; now rewrite He1 | ].
  split; [ exact Hbeats | ]. split; [ exact Hlen | ]. split; [ exact Hlast | ].
  split; [ exact Hfb | ].
  rewrite (post_validated req Hvalid).
  rewrite (bind_normal _ _ _ _ _ _ Hid).
  rewrite (bind_normal _ _ _ _ _ _ Hfire).
  unfold invalid_user. rewrite prop_defined by discriminate. rewrite bind_ret.
  cbn [field lookup_prop String.eqb Ascii.eqb Bool.eqb truthy negb].
  cbn.
  replace (status res =? 0) with false by lia. cbn.
  split; [ reflexivity | ].
  cbn. rewrite Heff. cbn. rewrite He1, <- app_assoc. reflexivity.
Qed.

(** ** Publishing after a commit *)

Lemma users_post_commits env st req row answer :
  truthy (requested req "name") = true ->
  truthy (requested req "email") = true ->
  prisma env (asked st OPrisma) = Normal row ->
  amqp st = true ->
  broker env (asked st OBroker) = answer ->
  exists st',
    Users.post req env st = (Normal tt, st') /\
    effects st' =
      effects st ++
      [Db (UserCreate (object [("id", Some (JStr ("u_" +:+ nanoid env (asked st ONanoid))));
                               ("name", requested req "name");
                               ("email", requested req "email")]%string)) (Normal row)] ++
      publish_record env (USER_CREATED (ROUTING_KEYS env)) row (Some row) answer ++
      [Respond (JNum 201) row].
Proof.
  intros Hname Hemail Hdb Hamqp Hbroker. unfold Users.post. cbv zeta.
  rewrite !prop_defined by (apply or_default_not_null; discriminate).
  rewrite !bind_ret. fold (requested req "name") (requested req "email").
  rewrite Hname, Hemail. cbn [negb orb].
  unfold bind, try_catch, prisma_call, publish, amqp_ch, ask, config, respond, log, emit, bind.
  cbn -[object]. rewrite Hdb. cbn -[object]. rewrite Hamqp. cbn -[object]. rewrite Hbroker.
  destruct answer as [e|]; cbn -[object]; eexists; (split; [ reflexivity | ]); cbn -[object];
    rewrite <- ?app_assoc; reflexivity.
Qed.

Lemma orders_post_commits env st req uid st1 user st2 row answer :
  valid_order req ->
  identity (requested req "userId") env st = (Normal uid, st1) ->
  fire uid env st1 = (Normal (Some user), st2) ->
  user <> JNull ->
  truthy (field user "error") = false ->
  prisma env (asked st2 OPrisma) = Normal row ->
  row <> JNull ->
  amqp st2 = true ->
  broker env (asked st2 OBroker) = answer ->
  exists st',
    post req env st = (Normal tt, st') /\
    effects st' =
      effects st2 ++
      [Db (OrderCreate (object [("id", Some (JStr ("o_" +:+ nanoid env (asked st2 ONanoid))));
                                ("userId", requested req "userId");
                                ("items", requested req "items");
                                ("total", requested req "total")]%string)) (Normal row)] ++
      publish_record env (ORDER_CREATED (ROUTING_KEYS env)) row (field row "id") answer ++
      [Respond (JNum 201) row].
Proof.
  intros Hvalid Hid Hfire Huser Herror Hdb Hrow Hamqp Hbroker.
  rewrite (post_validated req Hvalid).
  rewrite (bind_normal _ _ _ _ _ _ Hid).
  rewrite (bind_normal _ _ _ _ _ _ Hfire).
  rewrite prop_defined by exact Huser. rewrite bind_ret, Herror.
  unfold bind, try_catch, prisma_call, publish, amqp_ch, ask, config, respond, log, emit, bind.
  cbn -[object prop]. rewrite Hdb. cbn -[object prop]. rewrite Hamqp. cbn -[object prop].
  rewrite Hbroker, (prop_defined row) by exact Hrow.
  destruct answer as [e|]; cbn -[object]; eexists; (split; [ reflexivity | ]); cbn -[object];
    rewrite <- ?app_assoc; reflexivity.
Qed.

Lemma orders_cancel_commits env st req row answer :
  prisma env (asked st OPrisma) = Normal row ->
  row <> JNull ->
  amqp st = true ->
  broker env (asked st OBroker) = answer ->
  exists st',
    cancel req env st = (Normal tt, st') /\
    effects st' =
      effects st ++
      [Db (OrderUpdate (params_id req) (JObj [("status", JStr "cancelled")]%string)) (Normal row)] ++
      publish_record env (ORDER_CANCELLED (ROUTING_KEYS env)) row (field row "id") answer ++
      [Respond (JNum 200)
         (JObj [("message", JStr "order cancelled"); ("id", JStr (params_id req))]%string)].
Proof.
  intros Hdb Hrow Hamqp Hbroker. unfold cancel. cbv zeta.
  unfold bind, try_catch, prisma_call, publish, amqp_ch, ask, config, respond, log, emit, bind.
  cbn -[prop]. rewrite Hdb. cbn -[prop]. rewrite Hamqp. cbn -[prop].
  rewrite Hbroker, (prop_defined row) by exact Hrow.
  destruct answer as [e|]; cbn; eexists; (split; [ reflexivity | ]); cbn;
    rewrite <- ?app_assoc; reflexivity.
Qed.

(** C9.  For the three routes that change state (create user, create
    order, cancel order): once the database write has succeeded, the
    route ends normally and answers with the success response whatever
    the broker answers to the publish.  When the publish throws
    ([answer] is [Some e]) the error is logged and nothing else happens:
    the record holds the one write, the log line and the response, the
    same response as when the publish succeeds ([answer] is [None]),
    and no further database call. *)
Theorem publish_failure_stays_local env answer :
  (forall st req row,
     truthy (requested req "name") = true ->
     truthy (requested req "email") = true ->
     prisma env (asked st OPrisma) = Normal row ->
     amqp st = true ->
     broker env (asked st OBroker) = answer ->
     exists st',
       Users.post req env st = (Normal tt, st') /\
       effects st' =
         effects st ++
         [Db (UserCreate (object [("id", Some (JStr ("u_" +:+ nanoid env (asked st ONanoid))));
                                  ("name", requested req "name");
                                  ("email", requested req "email")]%string)) (Normal row)] ++
         publish_record env (USER_CREATED (ROUTING_KEYS env)) row (Some row) answer ++
         [Respond (JNum 201) row]) /\
  (forall st req uid st1 user st2 row,
     valid_order req ->
     identity (requested req "userId") env st = (Normal uid, st1) ->
     fire uid env st1 = (Normal (Some user), st2) ->
     user <> JNull ->
     truthy (field user "error") = false ->
     prisma env (asked st2 OPrisma) = Normal row ->
     row <> JNull ->
     amqp st2 = true ->
     broker env (asked st2 OBroker) = answer ->
     exists st',
       post req env st = (Normal tt, st') /\
       effects st' =
         effects st2 ++
         [Db (OrderCreate (object [("id", Some (JStr ("o_" +:+ nanoid env (asked st2 ONanoid))));
                                   ("userId", requested req "userId");
                                   ("items", requested req "items");
                                   ("total", requested req "total")]%string)) (Normal row)] ++
         publish_record env (ORDER_CREATED (ROUTING_KEYS env)) row (field row "id") answer ++
         [Respond (JNum 201) row]) /\
  (forall st req row,
     prisma env (asked st OPrisma) = Normal row ->
     row <> JNull ->
     amqp st = true ->
     broker env (asked st OBroker) = answer ->
     exists st',
       cancel req env st = (Normal tt, st') /\
       effects st' =
         effects st ++
         [Db (OrderUpdate (params_id req) (JObj [("status", JStr "cancelled")]%string))
             (Normal row)] ++
         publish_record env (ORDER_CANCELLED (ROUTING_KEYS env)) row (field row "id") answer ++
         [Respond (JNum 200)
            (JObj [("message", JStr "order cancelled"); ("id", JStr (params_id req))]%string)]).
Proof.
  split; [ | split ].
  - intros st req row. apply users_post_commits.
  - intros st req uid st1 user st2 row. apply orders_post_commits.
  - intros st req row. apply orders_cancel_commits.
Qed.

(** ** The consumer *)

Lemma consume_applies msg v env st :
  content msg = Json v -> v <> JNull ->
  consume (Some msg) env st =
  (Normal tt,
   with_effects (effects st ++ [Log (LConsumed (field v "id")); Ack (deliveryTag msg)])
     (with_userCache
        (<[match fst (identity (field v "id") env st) with
           | Normal key => key
           | Throw _ => KUndefined
           end := v]> (userCache st))
        (snd (identity (field v "id") env st)))).
Proof.
  intros Hc Hv. unfold consume. rewrite Hc. cbn [JSON_parse].
  rewrite bind_ret, prop_defined by exact Hv. rewrite bind_ret.
  unfold try_catch, bind. 
  destruct (field v "id") as [[]|]; cbn; rewrite <- ?app_assoc; reflexivity.
Qed.

Lemma consume_discards msg env st :
  content msg = Malformed \/ content msg = Json JNull ->
  exists e,
    consume (Some msg) env st =
    (Normal tt,
     with_effects (effects st ++ [Log (LConsumeError e); Nack (deliveryTag msg) false false]) st).
Proof.
  intros [Hc | Hc]; unfold consume; rewrite Hc;
    unfold try_catch, bind, log, emit, throw, JSON_parse, prop, with_effects; cbn;
    rewrite <- ?app_assoc; eexists; reflexivity.
Qed.

Lemma identity_normal v env st : exists key, fst (identity v env st) = Normal key.
Proof. destruct v as [[]|]; cbn; eauto. Qed.

(** C5, amended.  For every message: when its content parses to a JSON
    value other than null, the value is stored in the cache under the
    key of its [id] and the message is then acknowledged; when it does
    not parse, or parses to null, the message is rejected without
    requeue and the cache is left as it was.  In both cases the handler
    returns. *)
Theorem consumer_applies_or_discards msg env st :
  match content msg with
  | Malformed | Json JNull => discarded msg env st
  | Json v => applied msg v env st
  end /\ survived msg env st.
Proof.
  assert (forall v, content msg = Json v -> v <> JNull ->
            applied msg v env st /\ survived msg env st) as Happly.
  { intros v Hc Hv. unfold applied, survived. rewrite (consume_applies msg v) by assumption.
    cbn. destruct (identity_normal (field v "id") env st) as [key Hkey]. rewrite Hkey.
    repeat split. exists key. split; reflexivity. }
  assert (content msg = Malformed \/ content msg = Json JNull ->
            discarded msg env st /\ survived msg env st) as Hdiscard.
  { intros Hc. unfold discarded, survived.
    destruct (consume_discards msg env st Hc) as [e ->]. cbn. eauto. }
  destruct (content msg) as [|v] eqn:Hc; [ auto | ].
  destruct v; try (apply Happly; [ reflexivity | discriminate ]). auto.
Qed.

(** C5 fails as stated: the content [null] parses, and the message is
    neither stored nor acknowledged but rejected. *)
Lemma consumer_discards_json_null :
  ~ applies_whatever_parses {| content := Json JNull; deliveryTag := 7 |}
      Scenario.upstream_down Scenario.started.
Proof.
  intros [[_ Heffects] _]. cbn in Heffects. discriminate Heffects.
Qed.

(** C10.  A message whose content parses to a JSON value that is not
    null and has no [id] property is stored in the cache under the key
    [undefined] and acknowledged, whatever the value is. *)
Theorem consumer_caches_under_undefined msg v env st :
  content msg = Json v ->
  v <> JNull ->
  field v "id" = None ->
  exists st',
    consume (Some msg) env st = (Normal tt, st') /\
    userCache st' = <[KUndefined := v]> (userCache st) /\
    effects st' = effects st ++ [Log (LConsumed None); Ack (deliveryTag msg)].
Proof.
  intros Hc Hv Hid. rewrite (consume_applies msg v) by assumption. rewrite Hid.
  eexists. split; [ reflexivity | ]. split; reflexivity.
Qed.

Lemma consume_discards_cache msg env st :
  content msg = Malformed \/ content msg = Json JNull ->
  userCache (snd (consume (Some msg) env st)) = userCache st.
Proof. intros Hc. destruct (consume_discards msg env st Hc) as [e ->]. reflexivity. Qed.



(** ** Further properties of the call path *)

(** X1.  After fewer than MAX_HTTP_RETRIES retryable faults in a row, an
    answer that is not a fault (a status below 500) is what
    [fetchWithBackoff] returns, after as many sleeps as there were
    faults. *)
Theorem fetchWithBackoff_recovers env st url ms k res :
  (k < MAX_HTTP_RETRIES)%nat ->
  (forall i, (i < k)%nat -> fault (net env (asked st ONet + i)) = true) ->
  net env (asked st ONet + k) = Normal res ->
  status res < 500 ->
  exists st' pauses l,
    fetchWithBackoff url ms env st = (Normal (Some res), st') /\
    effects st' = effects st ++ l /\
    beats l = schedule pauses /\
    length pauses = k.
Proof.
  intros Hk Hfaults Hnet Hstatus.
  destruct (retry_responds k 0 MAX_HTTP_RETRIES url ms env st res)
    as (st' & pauses & l & Hrun & Heff & Hbeats & Hlen & _); try assumption.
  - cbn. lia.
  - exists st', pauses, l. auto.
Qed.

(** X2.  A request that fails the validation of app.post('/') is
    answered with status 400 and nothing else happens: no oracle is
    asked, so no remote call is made, and the cache is not read. *)
Theorem post_rejects_before_any_call env st req :
  ~ valid_order req ->
  post req env st =
  (Normal tt,
   with_effects
     (effects st ++
      [Respond (JNum 400)
         (JObj [("error", JStr "userId, items[], total<number> são obrigatórios")]%string)])
     st).
Proof.
  intros Hinvalid. unfold post. cbv zeta.
  rewrite !prop_defined by (apply or_default_not_null; discriminate).
  rewrite !bind_ret.
  fold (requested req "userId") (requested req "items") (requested req "total").
  destruct (truthy (requested req "userId")) eqn:Hu;
    destruct (isArray (requested req "items")) eqn:Hi;
    destruct (isNumber (requested req "total")) eqn:Ht;
    try reflexivity.
  destruct Hinvalid. repeat split; assumption.
Qed.



(** ** The connection supervisor *)

Lemma reconnect_backs_off remaining retries url env st e :
  connect env (asked st OConnect) = Throw e ->
  retries <> (Amqp.MAX_RETRIES - 1)%nat ->
  Amqp.reconnect (S remaining) retries url env st =
  Amqp.reconnect remaining (S retries) url env (connection_retried retries url env st).
Proof.
  intros Hc Hne. cbn [Amqp.reconnect].
  apply Nat.eqb_neq in Hne. rewrite Hne.
  unfold connection_retried, reconnect_delay, used, Math_random, try_catch, bind, log, emit,
    ask, await, ret.
  cbn. rewrite Hc. cbn. rewrite <- !app_assoc. reflexivity.
Qed.

Lemma reconnect_gives_up remaining url env st e :
  connect env (asked st OConnect) = Throw e ->
  Amqp.reconnect (S remaining) (Amqp.MAX_RETRIES - 1) url env st =
  (Throw e, connection_given_up url st).
Proof.
  intros Hc. cbn [Amqp.reconnect].
  unfold connection_given_up, used, try_catch, bind, log, emit, ask, await, throw.
  cbn. rewrite Hc. cbn. rewrite <- !app_assoc. reflexivity.
Qed.

Lemma asked_connection_retried retries url env st :
  asked (connection_retried retries url env st) OConnect = S (asked st OConnect).
Proof. reflexivity. Qed.

Lemma reconnect_exhausted remaining :
  forall retries url env st (errors : nat -> Error),
    (retries + remaining = Amqp.MAX_RETRIES)%nat ->
    (0 < remaining)%nat ->
    (forall i, (i < remaining)%nat ->
       connect env (asked st OConnect + i) = Throw (errors (retries + i)%nat)) ->
    exists st' pauses l,
      Amqp.reconnect remaining retries url env st =
        (Throw (errors (Amqp.MAX_RETRIES - 1)%nat), st') /\
      effects st' = effects st ++ l /\
      beats l = schedule pauses /\
      S (length pauses) = remaining.
Proof.
  induction remaining as [|n IH]; intros retries url env st errors Hsum Hpos Herr; [ lia | ].
  pose proof (Herr 0%nat ltac:(lia)) as H0. rewrite !Nat.add_0_r in H0.
  destruct (Nat.eq_dec retries (Amqp.MAX_RETRIES - 1)%nat) as [-> | Hne].
  - rewrite (reconnect_gives_up _ _ _ _ _ H0).
    assert (n = 0%nat) as -> by (unfold Amqp.MAX_RETRIES in *; lia).
    exists (connection_given_up url st), [], [Connect url; Log LAmqpGivingUp].
    repeat split.
  - rewrite (reconnect_backs_off _ _ _ _ _ _ H0 Hne).
    destruct (IH (S retries) url env (connection_retried retries url env st) errors)
      as (st' & pauses & l & Hrun & Heff & Hbeats & Hlen).
    + lia.
    + unfold Amqp.MAX_RETRIES in *. lia.
    + intros i Hi. rewrite asked_connection_retried.
      replace (S (asked st OConnect) + i)%nat with (asked st OConnect + S i)%nat by lia.
      replace (S retries + i)%nat with (retries + S i)%nat by lia.
      apply Herr. lia.
    + set (d := reconnect_delay retries (random env (asked st ORandom))) in *.
      exists st', (d :: pauses), ([Connect url; Log (LAmqpRetryIn d); Sleep d] ++ l).
      split; [ exact Hrun | ]. split; [ | split ].
      * rewrite Heff. unfold connection_retried. cbn. fold d. now rewrite <- app_assoc.
      * cbn. now rewrite Hbeats.
      * cbn. now rewrite Hlen.
Qed.

(** X4.  When the broker refuses MAX_RETRIES (10) connections in a row,
    [connectWithRetry] makes exactly 10 attempts, with a sleep between
    two of them, and throws the error of the last attempt. *)
Theorem connectWithRetry_exhausted env st url (errors : nat -> Error) :
  (forall i, (i < Amqp.MAX_RETRIES)%nat ->
     connect env (asked st OConnect + i) = Throw (errors i)) ->
  exists st' pauses l,
    Amqp.connectWithRetry url env st = (Throw (errors 9%nat), st') /\
    effects st' = effects st ++ l /\
    beats l = schedule pauses /\
    length pauses = 9%nat.
Proof.
  intros Herr.
  destruct (reconnect_exhausted Amqp.MAX_RETRIES 0 url env st errors)
    as (st' & pauses & l & Hrun & Heff & Hbeats & Hlen).
  - reflexivity.
  - unfold Amqp.MAX_RETRIES. lia.
  - exact Herr.
  - exists st', pauses, l. repeat split; try assumption.
    unfold Amqp.MAX_RETRIES in Hlen. lia.
Qed.

(** ** What the retrier and the wrapped call can end with *)

Lemma retry_outcomes remaining :
  forall retries url ms env st,
    (retries + remaining = MAX_HTTP_RETRIES)%nat ->
    (0 < remaining)%nat ->
    exists pauses l,
      effects (snd (retry remaining retries url ms env st)) = effects st ++ l /\
      beats l = schedule pauses /\
      ((exists res,
          fst (retry remaining retries url ms env st) = Normal (Some res) /\
          net env (asked st ONet + length pauses) = Normal res /\
          status res < 500 /\
          (length pauses < remaining)%nat) \/
       (fst (retry remaining retries url ms env st) = Throw (ReferenceError "err") /\
        S (length pauses) = remaining)).
Proof.
  induction remaining as [|n IH]; intros retries url ms env st Hsum Hpos; [ lia | ].
  destruct (fault (net env (asked st ONet))) eqn:Hfault.
  - destruct (Nat.eq_dec retries (MAX_HTTP_RETRIES - 1)%nat) as [-> | Hne].
    + rewrite retry_gives_up by exact Hfault.
      exists [], [Fetch url ms; Log (LFetchFailed url (MAX_HTTP_RETRIES - 1 + 1)); Log LAllAttemptsFailed].
      split; [ reflexivity | ]. split; [ reflexivity | ].
      right. split; [ reflexivity | ]. unfold MAX_HTTP_RETRIES in *. cbn. lia.
    + rewrite retry_backs_off by assumption.
      destruct (IH (S retries) url ms env (backed_off retries url ms env st))
        as (pauses & l & Heff & Hbeats & Hout);
        [ lia | unfold MAX_HTTP_RETRIES in *; lia | ].
      set (d := delay_after retries (random env (asked st ORandom))) in *.
      exists (d :: pauses),
        ([Fetch url ms; Log (LFetchFailed url (retries + 1)); Log (LRetryIn d); Sleep d] ++ l).
      split; [ | split ].
      * rewrite Heff, effects_backed_off. fold d. now rewrite <- app_assoc.
      * cbn. now rewrite Hbeats.
      * destruct Hout as [(res & Hrun & Hnet & Hstatus & Hlen) | [Hrun Hlen]].
        -- left. exists res. split; [ exact Hrun | ]. split; [ | split; [ exact Hstatus | cbn; lia ] ].
           rewrite asked_backed_off in Hnet. cbn [length].
           replace (asked st ONet + S (length pauses))%nat
             with (S (asked st ONet) + length pauses)%nat by lia.
           exact Hnet.
        -- right. split; [ exact Hrun | cbn; lia ].
  - destruct (net env (asked st ONet)) as [res|e] eqn:Hnet; [ | discriminate ].
    erewrite retry_returns by eassumption.
    exists [], [Fetch url ms]. split; [ reflexivity | ]. split; [ reflexivity | ].
    left. exists res. cbn [length]. rewrite Nat.add_0_r.
    split; [ reflexivity | ]. split; [ exact Hnet | ]. cbn in Hfault. split; lia.
Qed.

(** X5.  Whatever the upstream service does, a call of
    [fetchWithBackoff] ends in one of two ways.  Either it returns the
    response of its last attempt, whose status is below 500, after at
    most MAX_HTTP_RETRIES attempts; or it throws the ReferenceError of
    [err], after exactly MAX_HTTP_RETRIES attempts.  It never returns
    [undefined], never returns a response with a server-class status,
    and never throws the error of an attempt. *)
Theorem fetchWithBackoff_outcomes env st url ms :
  exists pauses l,
    effects (snd (fetchWithBackoff url ms env st)) = effects st ++ l /\
    beats l = schedule pauses /\
    ((exists res,
        fst (fetchWithBackoff url ms env st) = Normal (Some res) /\
        net env (asked st ONet + length pauses) = Normal res /\
        status res < 500 /\
        (length pauses < MAX_HTTP_RETRIES)%nat) \/
     (fst (fetchWithBackoff url ms env st) = Throw (ReferenceError "err") /\
      S (length pauses) = MAX_HTTP_RETRIES)).
Proof.
  apply (retry_outcomes MAX_HTTP_RETRIES 0 url ms env st); [ reflexivity | ].
  unfold MAX_HTTP_RETRIES. lia.
Qed.


(** ** One response for a handler that returns, none for one that throws *)

Lemma appends_silent_prisma_call call : appends silent (prisma_call call).
Proof. unfold prisma_call. appends_auto. Qed.

Lemma appends_silent_publish rk payload : appends silent (publish rk payload).
Proof. unfold publish. appends_auto. Qed.

Lemma appends_silent_prisma_user : appends silent UsersRoutes.prisma_user.
Proof. unfold UsersRoutes.prisma_user. appends_auto. Qed.

#[local] Hint Resolve appends_silent_prisma_call appends_silent_publish
  appends_silent_prisma_user appends_fire : appends.

Lemma answers_respond statusCode body : answers (respond statusCode body).
Proof.
  intros env st. exists [Respond statusCode body]. split; reflexivity.
Qed.

Lemma answers_bind {A B} (m : M A) (k : A -> M B) :
  appends silent m -> (forall a, answers (k a)) -> answers (bind m k).
Proof.
  intros Hm Hk env st. unfold bind.
  destruct (Hm env st) as (l1 & _ & _ & He1 & Hs1).
  destruct (m env st) as [[a|e] st1]; cbn [fst snd] in *.
  - destruct (Hk a env st1) as (l2 & He2 & Hr2).
    exists (l1 ++ l2). rewrite He2, He1, app_assoc. split; [ reflexivity | ].
    rewrite responses_app, (responses_silent l1 Hs1). exact Hr2.
  - exists l1. split; [ exact He1 | ]. now apply responses_silent.
Qed.

Lemma answers_try_catch {A} (m : M A) (h : Error -> M A) :
  answers m -> (forall e, fails (h e)) -> answers (try_catch m h).
Proof.
  intros Hm Hh env st. unfold try_catch.
  destruct (Hm env st) as (l1 & He1 & Hr1).
  destruct (m env st) as [[a|e] st1]; cbn [fst snd] in *.
  - exists l1. auto.
  - destruct (Hh e) as [Hquiet Hthrows].
    destruct (Hquiet env st1) as (l2 & _ & _ & He2 & Hs2).
    destruct (Hthrows env st1) as [e' He'].
    exists (l1 ++ l2). rewrite He2, He1, app_assoc. split; [ reflexivity | ].
    rewrite He'. rewrite responses_app, Hr1, (responses_silent l2 Hs2). reflexivity.
Qed.

(** A [catch] clause that starts by reading an unbound identifier sends
    nothing and throws, whatever stands after the read. *)
Lemma fails_unbound {A B} (identifier : string) (k : A -> M B) :
  fails (bind (unbound identifier) k).
Proof.
  split.
  - intros env st. exists []. cbn. rewrite app_nil_r. auto.
  - intros env st. exists (ReferenceError identifier). reflexivity.
Qed.

Ltac answers_step :=
  lazymatch goal with
  | |- answers (bind _ _) => apply answers_bind; [ solve [ appends_auto ] | intros ? ]
  | |- answers (try_catch _ _) => apply answers_try_catch; [ | intros ?; apply fails_unbound ]
  | |- answers (respond _ _) => apply answers_respond
  | |- answers (if ?b then _ else _) => destruct b
  | |- answers (let _ := _ in _) => cbv zeta
  end.

Lemma answers_post req : answers (post req).
Proof. unfold post. repeat answers_step. Qed.

Lemma answers_cancel req : answers (cancel req).
Proof. unfold cancel. repeat answers_step. Qed.

(** X7.  Every route of the orders service answers its caller when its
    handler returns, and only then: a handler that returns normally has
    sent exactly one response, and a handler that throws (the breaker's
    rejection, a property read on a missing user, a database error) has
    sent none. *)
Theorem orders_routes_answer_once_or_throw :
  answers health /\
  answers list_orders /\
  (forall req, answers (post req)) /\
  (forall req, answers (cancel req)).
Proof.
  split; [ | split; [ | split ] ].
  - apply answers_respond.
  - unfold list_orders. repeat answers_step.
  - apply answers_post.
  - apply answers_cancel.
Qed.

Lemma answers_users_post req : answers (Users.post req).
Proof. unfold Users.post. repeat answers_step. Qed.

(** X8.  The routes of the users service that read or create a user
    (health, list, get by id, create) answer their caller when the
    handler returns, and only then: exactly one response when it
    returns normally, none when it throws. *)
Theorem users_routes_answer_once_or_throw :
  answers UsersRoutes.health /\
  answers UsersRoutes.list_users /\
  (forall req, answers (UsersRoutes.get_user req)) /\
  (forall req, answers (Users.post req)).
Proof.
  split; [ | split; [ | split ] ].
  - apply answers_respond.
  - unfold UsersRoutes.list_users, UsersRoutes.findMany. repeat answers_step.
  - intros req. unfold UsersRoutes.get_user, UsersRoutes.findUnique. repeat answers_step.
  - apply answers_users_post.
Qed.

(** ** When the database rejects a write *)

(** X9.  When the database rejects the write of app.post('/') of the
    orders service, the handler throws the ReferenceError of [err]: the
    [catch] clause binds [error] and reads [err].  The rejected call is
    all the route adds to what the breaker left on record: the 500
    response is not sent and nothing is published. *)
Theorem orders_post_database_error_is_thrown env st req uid st1 user st2 e :
  valid_order req ->
  identity (requested req "userId") env st = (Normal uid, st1) ->
  fire uid env st1 = (Normal (Some user), st2) ->
  user <> JNull ->
  truthy (field user "error") = false ->
  prisma env (asked st2 OPrisma) = Throw e ->
  exists st',
    post req env st = (Throw (ReferenceError "err"), st') /\
    effects st' =
      effects st2 ++
      [Db (OrderCreate (object [("id", Some (JStr ("o_" +:+ nanoid env (asked st2 ONanoid))));
                                ("userId", requested req "userId");
                                ("items", requested req "items");
                                ("total", requested req "total")]%string)) (Throw e)].
Proof.
  intros Hvalid Hid Hfire Huser Herror Hdb.
  rewrite (post_validated req Hvalid).
  rewrite (bind_normal _ _ _ _ _ _ Hid).
  rewrite (bind_normal _ _ _ _ _ _ Hfire).
  rewrite prop_defined by exact Huser. rewrite bind_ret, Herror.
  unfold bind, try_catch, prisma_call, ask, unbound, throw, emit, await, bind.
  cbn -[object prop]. rewrite Hdb. cbn -[object].
  eexists. split; reflexivity.
Qed.

(** X10.  When the database rejects the update of app.delete('/:id'),
    whatever the error is (the code P2025 of a missing order included),
    the handler throws the ReferenceError of [err].  The rejected call
    is all the route leaves on record: neither the 404 nor the 500
    response is sent, and nothing is published. *)
Theorem orders_cancel_database_error_is_thrown env st req e :
  prisma env (asked st OPrisma) = Throw e ->
  exists st',
    cancel req env st = (Throw (ReferenceError "err"), st') /\
    effects st' =
      effects st ++
      [Db (OrderUpdate (params_id req) (JObj [("status", JStr "cancelled")]%string)) (Throw e)].
Proof.
  intros Hdb. unfold cancel. cbv zeta.
  unfold bind, try_catch, prisma_call, ask, unbound, throw, emit, await, bind.
  cbn -[prop]. rewrite Hdb. cbn. eexists. split; reflexivity.
Qed.

Lemma users_post_validated req :
  valid_user req ->
  Users.post req =
  (suffix <- ask ONanoid nanoid ;;
   let id := ("u_" +:+ suffix)%string in
   try_catch
     (user <- prisma_call
                (UserCreate (object [("id", Some (JStr id)); ("name", requested req "name");
                                     ("email", requested req "email")]%string)) ;;
      try_catch
        (connected <- amqp_ch ;;
         if connected
         then
           keys <- config ROUTING_KEYS ;;
           publish (USER_CREATED keys) user ;;
           log (LPublished (USER_CREATED keys) (Some user))
         else ret tt)
        (fun err => log (LPublishError err)) ;;
      respond (JNum 201) user)
     (fun error =>
        err <- unbound "err" ;;
        if bool_decide (code err = Some "P2002"%string)
        then respond (JNum 409) (JObj [("error", JStr "Email already exists")]%string)
        else
          log (LDbError err) ;;
          respond (JNum 500) (JObj [("error", JStr "Erro ao tentar criar usuário")]%string)))%prog.
Proof.
  intros [Hname Hemail]. unfold Users.post. cbv zeta.
  rewrite !prop_defined by (apply or_default_not_null; discriminate).
  rewrite !bind_ret. fold (requested req "name") (requested req "email").
  rewrite Hname, Hemail. reflexivity.
Qed.

(** X11.  When the database rejects the creation of a user, whatever the
    error is (the code P2002 of a taken email included), app.post('/')
    of the users service throws the ReferenceError of [err]: neither the
    409 nor the 500 response is sent, and nothing is published. *)
Theorem users_post_database_error_is_thrown env st req e :
  valid_user req ->
  prisma env (asked st OPrisma) = Throw e ->
  exists st',
    Users.post req env st = (Throw (ReferenceError "err"), st') /\
    effects st' =
      effects st ++
      [Db (UserCreate (object [("id", Some (JStr ("u_" +:+ nanoid env (asked st ONanoid))));
                               ("name", requested req "name");
                               ("email", requested req "email")]%string)) (Throw e)].
Proof.
  intros Hvalid Hdb. rewrite (users_post_validated req Hvalid).
  unfold bind, try_catch, prisma_call, ask, unbound, throw, emit, await, bind.
  cbn -[object]. rewrite Hdb. cbn -[object]. eexists. split; reflexivity.
Qed.

(** X12.  A request to app.post('/') of the users service without a
    truthy [name] and a truthy [email] is answered with status 400 and
    nothing else happens: no identifier is drawn, the database is not
    called and nothing is published. *)
Theorem users_post_rejects_before_any_call env st req :
  ~ valid_user req ->
  Users.post req env st =
  (Normal tt,
   with_effects
     (effects st ++
      [Respond (JNum 400) (JObj [("error", JStr "name and email are required")]%string)])
     st).
Proof.
  intros Hinvalid. unfold Users.post. cbv zeta.
  rewrite !prop_defined by (apply or_default_not_null; discriminate).
  rewrite !bind_ret. fold (requested req "name") (requested req "email").
  destruct (truthy (requested req "name")) eqn:Hname;
    destruct (truthy (requested req "email")) eqn:Hemail; try reflexivity.
  destruct Hinvalid. split; assumption.
Qed.

(** ** Deliveries and the cache *)

Lemma fire_serves_cached env st userId entry :
  userCache st !! userId = Some entry ->
  failure_path userId env st ->
  fst (fire userId env st) = Normal (Some entry).
Proof.
  intros Hcached Hfail. rewrite fire_run. cbv zeta.
  pose proof (userCache_callUserService userId env (used OBreaker st)) as Hsame.
  cbn [userCache used with_asked] in Hsame.
  assert (forall st', userCache st' = userCache st ->
            fst (fallback userId env st') = Normal (Some entry)) as Hfb.
  { intros st' Hst'. rewrite (fallback_cached _ entry) by (rewrite Hst'; exact Hcached).
    reflexivity. }
  destruct Hfail as [Hopen | [[e He] | Htimer]].
  - rewrite Hopen. now apply Hfb.
  - rewrite He. destruct (gate_state _); now apply Hfb.
  - rewrite Htimer.
    destruct (gate_state _), (fst (callUserService userId env (used OBreaker st)));
      now apply Hfb.
Qed.

Lemma field_some_not_null v name x : field v name = Some x -> v <> JNull.
Proof. intros H ->. discriminate H. Qed.

(** X13.  What the consumer stores is what the fallback serves: once a
    message whose payload has the string id [s] was consumed, a [fire]
    for [s] that ends on a failure path returns that payload. *)
Theorem consumed_payload_is_served env st msg v s :
  content msg = Json v ->
  field v "id" = Some (JStr s) ->
  failure_path (KStr s) env (snd (consume (Some msg) env st)) ->
  fst (fire (KStr s) env (snd (consume (Some msg) env st))) = Normal (Some v).
Proof.
  intros Hcontent Hid Hfail.
  apply fire_serves_cached; [ | exact Hfail ].
  rewrite (consume_applies msg v) by (eauto using field_some_not_null).
  rewrite Hid. cbn. apply lookup_insert_eq.
Qed.

(** X14.  The last delivery wins: when two messages whose payloads have
    the same id (a string, a number, a boolean, null or none) are
    consumed one after the other, the cache is what it would be had
    only the second been consumed. *)
Theorem last_delivery_wins env st msg1 msg2 v1 v2 :
  content msg1 = Json v1 -> v1 <> JNull ->
  content msg2 = Json v2 -> v2 <> JNull ->
  isObject (field v1 "id") = false ->
  field v1 "id" = field v2 "id" ->
  userCache (snd (consume (Some msg2) env (snd (consume (Some msg1) env st)))) =
  userCache (snd (consume (Some msg2) env st)).
Proof.
  intros Hc1 Hv1 Hc2 Hv2 Hprimitive Hsame.
  rewrite !(consume_applies msg2 v2), (consume_applies msg1 v1) by assumption.
  rewrite <- Hsame.
  destruct (field v1 "id") as [[]|]; try discriminate; cbn; apply insert_insert_eq.
Qed.

(** X15.  Deliveries for different ids do not depend on their order:
    when the payloads of two messages have different ids (each a string,
    a number, a boolean, null or none), consuming them in either order
    gives the same cache. *)
Theorem deliveries_for_different_ids_commute env st msg1 msg2 v1 v2 :
  content msg1 = Json v1 -> v1 <> JNull ->
  content msg2 = Json v2 -> v2 <> JNull ->
  isObject (field v1 "id") = false ->
  isObject (field v2 "id") = false ->
  field v1 "id" <> field v2 "id" ->
  userCache (snd (consume (Some msg2) env (snd (consume (Some msg1) env st)))) =
  userCache (snd (consume (Some msg1) env (snd (consume (Some msg2) env st)))).
Proof.
  intros Hc1 Hv1 Hc2 Hv2 Hp1 Hp2 Hdiff.
  rewrite !(consume_applies msg2 v2), !(consume_applies msg1 v1) by assumption.
  destruct (field v1 "id") as [[]|]; try discriminate;
    destruct (field v2 "id") as [[]|]; try discriminate; cbn;
    apply insert_insert_ne; congruence.
Qed.

Lemma consume_keeps_entries msg env st :
  dom (userCache st) ⊆ dom (userCache (snd (consume msg env st))).
Proof.
  destruct msg as [msg|]; [ | reflexivity ].
  destruct (content msg) as [|v] eqn:Hc.
  - rewrite consume_discards_cache by now left. reflexivity.
  - assert (v = JNull \/ v <> JNull) as [-> | Hv]
      by (destruct v; (left; reflexivity) || (right; discriminate)).
    + rewrite consume_discards_cache by now right. reflexivity.
    + rewrite (consume_applies msg v) by assumption.
      destruct (field v "id") as [[]|]; cbn; rewrite dom_insert_L; set_solver.
Qed.

(** X16.  No operation of the orders service removes an entry of the
    cache: after any sequence of deliveries and requests, every id that
    had an entry still has one.  (There is no eviction and no expiry.) *)
Theorem userCache_never_shrinks env ops st :
  dom (userCache st) ⊆ dom (userCache (run env ops st)).
Proof.
  revert st. induction ops as [|op ops IH]; intros st; [ reflexivity | ].
  unfold run in *. cbn [fold_left]. etransitivity; [ | apply IH ].
  destruct op as [msg| | | |].
  - apply consume_keeps_entries.
  - now destruct (appends_handle GetHealth eq_refl env st) as (l & -> & _).
  - now destruct (appends_handle GetOrders eq_refl env st) as (l & -> & _).
  - now destruct (appends_handle (PostOrder req) eq_refl env st) as (l & -> & _).
  - now destruct (appends_handle (DeleteOrder req) eq_refl env st) as (l & -> & _).
Qed.

(** ** The connection supervisor recovers *)





Lemma reconnect_never_undefined remaining retries url env st :
  (0 < remaining)%nat ->
  (retries + remaining = Amqp.MAX_RETRIES)%nat ->
  fst (Amqp.reconnect remaining retries url env st) <> Normal None.
Proof.
  revert retries st. induction remaining as [|remaining IH]; intros retries st Hpos Hsum; [ lia | ].
  destruct (connect env (asked st OConnect)) as [conn|e] eqn:Hconn.
  - unfold Amqp.reconnect, bind, try_catch, emit, log, ask, await, ret; cbn.
    rewrite Hconn. cbn. discriminate.
  - destruct remaining as [|remaining].
    + assert (retries = (Amqp.MAX_RETRIES - 1)%nat) as -> by lia.
      unfold Amqp.reconnect, bind, try_catch, emit, log, ask, await, ret, throw; cbn.
      rewrite Hconn. cbn. discriminate.
    + assert (Hne : Nat.eqb retries (Amqp.MAX_RETRIES - 1) = false)
        by (apply Nat.eqb_neq; lia).
      change (Amqp.reconnect (S (S remaining)) retries url env st)
        with ((returned <-
                 try_catch
                   (emit (Connect url) ;;
                    answer <- ask OConnect connect ;;
                    conn <- await answer ;;
                    log LAmqpConnected ;;
                    ret (Some conn))
                   (fun err =>
                      (if Nat.eqb retries (Amqp.MAX_RETRIES - 1)
                       then (log LAmqpGivingUp ;; throw err)
                       else ret tt) ;;
                      let delay := Amqp.BASE_RETRY_DELAY_MS * 2 ^ Z.of_nat retries in
                      r <- Math_random ;;
                      let jitter := Qfloor (r * 1000) in
                      log (LAmqpRetryIn (delay + jitter)) ;;
                      emit (Sleep (delay + jitter)) ;;
                      ret None) ;;
               match returned with
               | Some conn => ret (Some conn)
               | None => Amqp.reconnect (S remaining) (S retries) url
               end)%prog env st).
      rewrite Hne.
      unfold bind at 1, try_catch, emit, log, ask, await, ret, throw, Math_random, bind;
        cbn -[Amqp.reconnect]. rewrite Hconn. cbn -[Amqp.reconnect].
      apply IH; lia.
Qed.

(** X21.  [connectWithRetry] never returns undefined: its [for] loop is
    never left by its condition, because the last iteration either
    returns the connection or rethrows the error. *)
Theorem connectWithRetry_never_undefined url env st :
  fst (Amqp.connectWithRetry url env st) <> Normal None.
Proof.
  apply reconnect_never_undefined; unfold Amqp.MAX_RETRIES; lia.
Qed.

(** ** app.patch('/:id') of the users service *)

Lemma patch_validated req :
  valid_user req ->
  UsersRoutes.patch req =
  (returned <-
     try_catch
       (updated <- UsersRoutes.update (params_id req)
                     (object [("name", requested req "name");
                              ("email", requested req "email")]%string) ;;
        try_catch
          (connected <- amqp_ch ;;
           if connected
           then
             keys <- config ROUTING_KEYS ;;
             publish (USER_UPDATED keys) updated ;;
             log (LPublished (USER_UPDATED keys) (Some updated))
           else ret tt)
          (fun error => log (LPublishError error)) ;;
        respond (JNum 200) updated ;;
        ret false)
       (fun error =>
          if bool_decide (code error = Some "P2025"%string)
          then (respond (JNum 404) (JObj [("error", JStr "not found")]%string) ;;
                ret true)
          else if bool_decide (code error = Some "P2002"%string)
          then (respond (JNum 409)
                  (JObj [("error", JStr "Email already in use by another user")]%string) ;;
                ret true)
          else (log (LPublishError error) ;;
                respond (JNum 500) (JObj [("error", JStr "Não foi possível atualizar!")]%string) ;;
                ret false)) ;;
   if returned
   then ret tt
   else
     try_catch
       (connected <- amqp_ch ;;
        if connected
        then
          updated <- unbound "updated" ;;
          keys <- config ROUTING_KEYS ;;
          publish (USER_UPDATED keys) updated ;;
          log (LPublished (USER_UPDATED keys) (Some updated))
        else ret tt)
       (fun error => log (LPublishError error)) ;;
     updated <- unbound "updated" ;;
     respond (JNum 200) updated)%prog.
Proof.
  intros [Hname Hemail]. unfold UsersRoutes.patch. cbv zeta.
  rewrite !prop_defined by (apply or_default_not_null; discriminate).
  rewrite !bind_ret. fold (requested req "name") (requested req "email").
  rewrite Hname, Hemail. reflexivity.
Qed.

Lemma patch_updates env st req row :
  valid_user req ->
  prisma env (asked st OPrisma) = Normal row ->
  exists st',
    UsersRoutes.patch req env st = (Throw (ReferenceError "updated"), st') /\
    effects st' =
      effects st ++ first_record env st row ++ [Respond (JNum 200) row] ++ trailing_record st.
Proof.
  intros Hvalid Hdb. rewrite (patch_validated req Hvalid).
  unfold first_record, trailing_record, publish_record.
  unfold bind, try_catch, UsersRoutes.update, UsersRoutes.prisma_user, publish, amqp_ch, ask,
    config, respond, log, emit, unbound, throw, await, ret, bind.
  cbn -[object]. rewrite Hdb. cbn -[object].
  destruct (amqp st) eqn:Hamqp; cbn -[object];
    [ destruct (broker env (asked st OBroker)); cbn -[object] | ];
    rewrite ?Hamqp; cbn -[object];
    eexists; (split; [ reflexivity | ]); cbn; rewrite <- ?app_assoc; reflexivity.
Qed.

Lemma patch_known_code env st req e statusCode text :
  valid_user req ->
  prisma env (asked st OPrisma) = Throw e ->
  (code e = Some "P2025"%string /\ statusCode = 404 /\ text = "not found"%string) \/
  (code e = Some "P2002"%string /\ statusCode = 409 /\
   text = "Email already in use by another user"%string) ->
  UsersRoutes.patch req env st =
  (Normal tt,
   with_effects (effects st ++ [Respond (JNum statusCode) (JObj [("error", JStr text)]%string)])
     (used OPrisma st)).
Proof.
  intros Hvalid Hdb Hcode. rewrite (patch_validated req Hvalid).
  unfold bind, try_catch, UsersRoutes.update, UsersRoutes.prisma_user, ask,
    respond, emit, await, throw, ret, bind.
  cbn -[object bool_decide]. rewrite Hdb. cbn -[object bool_decide].
  destruct Hcode as [(Hc & -> & ->) | (Hc & -> & ->)]; rewrite Hc.
  - rewrite bool_decide_eq_true_2 by reflexivity. reflexivity.
  - rewrite bool_decide_eq_false_2 by discriminate.
    rewrite bool_decide_eq_true_2 by reflexivity. reflexivity.
Qed.

Lemma patch_other_error env st req e :
  valid_user req ->
  prisma env (asked st OPrisma) = Throw e ->
  code e <> Some "P2025"%string ->
  code e <> Some "P2002"%string ->
  exists st',
    UsersRoutes.patch req env st = (Throw (ReferenceError "updated"), st') /\
    effects st' =
      effects st ++
      [Log (LPublishError e);
       Respond (JNum 500) (JObj [("error", JStr "Não foi possível atualizar!")]%string)] ++
      trailing_record st.
Proof.
  intros Hvalid Hdb H1 H2. rewrite (patch_validated req Hvalid).
  unfold trailing_record.
  unfold bind, try_catch, UsersRoutes.update, UsersRoutes.prisma_user, amqp_ch, ask,
    respond, log, emit, unbound, await, throw, ret, bind.
  cbn -[object bool_decide]. rewrite Hdb. cbn -[object bool_decide].
  rewrite !bool_decide_eq_false_2 by assumption. cbn.
  destruct (amqp st) eqn:Hamqp; cbn; rewrite ?Hamqp; cbn;
    eexists; (split; [ reflexivity | ]); cbn; rewrite <- ?app_assoc; reflexivity.
Qed.

Lemma patch_invalid env st req :
  ~ valid_user req ->
  UsersRoutes.patch req env st =
  (Normal tt,
   with_effects
     (effects st ++
      [Respond (JNum 400) (JObj [("error", JStr "name and email are required")]%string)])
     st).
Proof.
  intros Hinvalid. unfold UsersRoutes.patch. cbv zeta.
  rewrite !prop_defined by (apply or_default_not_null; discriminate).
  rewrite !bind_ret. fold (requested req "name") (requested req "email").
  destruct (truthy (requested req "name")) eqn:Hname;
    destruct (truthy (requested req "email")) eqn:Hemail; try reflexivity.
  destruct Hinvalid. split; assumption.
Qed.

(** X18.  After a successful update, app.patch('/:id') publishes the
    event at most once (the first publish block), answers once with
    status 200 and the updated row, and then ends by throwing the
    ReferenceError of [updated]: the code after the first [try] block
    reads a name bound only inside it.  The trailing publish block never
    publishes; with a channel it logs that ReferenceError. *)
Theorem patch_answers_then_throws env st req row :
  valid_user req ->
  prisma env (asked st OPrisma) = Normal row ->
  exists st',
    UsersRoutes.patch req env st = (Throw (ReferenceError "updated"), st') /\
    effects st' =
      effects st ++ first_record env st row ++ [Respond (JNum 200) row] ++ trailing_record st.
Proof. apply patch_updates. Qed.

(** X19.  When the database rejects the update of app.patch('/:id'):
    for the code P2025 the route answers 404 and returns, for the code
    P2002 it answers 409 and returns (this [catch] clause reads the
    [error] it binds); for any other error it logs it, answers 500, and
    then ends by throwing the ReferenceError of [updated].  Nothing is
    published in any of the three cases. *)
Theorem patch_database_errors env st req e :
  valid_user req ->
  prisma env (asked st OPrisma) = Throw e ->
  (code e = Some "P2025"%string ->
   UsersRoutes.patch req env st =
   (Normal tt,
    with_effects
      (effects st ++ [Respond (JNum 404) (JObj [("error", JStr "not found")]%string)])
      (used OPrisma st))) /\
  (code e = Some "P2002"%string ->
   UsersRoutes.patch req env st =
   (Normal tt,
    with_effects
      (effects st ++
       [Respond (JNum 409)
          (JObj [("error", JStr "Email already in use by another user")]%string)])
      (used OPrisma st))) /\
  (code e <> Some "P2025"%string -> code e <> Some "P2002"%string ->
   exists st',
     UsersRoutes.patch req env st = (Throw (ReferenceError "updated"), st') /\
     effects st' =
       effects st ++
       [Log (LPublishError e);
        Respond (JNum 500) (JObj [("error", JStr "Não foi possível atualizar!")]%string)] ++
       trailing_record st).
Proof.
  intros Hvalid Hdb. split; [ | split ].
  - intros Hcode. apply (patch_known_code env st req e); auto.
  - intros Hcode. apply (patch_known_code env st req e); auto.
  - intros H1 H2. now apply patch_other_error.
Qed.

Lemma publications_app l1 l2 : publications (l1 ++ l2) = publications l1 ++ publications l2.
Proof.
  induction l1 as [|e l1 IH]; [ reflexivity | ].
  destruct e; cbn; rewrite ?IH; reflexivity.
Qed.

Lemma first_record_counts env st row :
  responses (first_record env st row) = [] /\
  (publications (first_record env st row) = [] \/
   publications (first_record env st row) = [(USER_UPDATED (ROUTING_KEYS env), row)]).
Proof.
  unfold first_record, publish_record.
  destruct (amqp st); [ destruct (broker env (asked st OBroker)) | ]; cbn; auto.
Qed.

Lemma trailing_record_counts st :
  responses (trailing_record st) = [] /\ publications (trailing_record st) = [].
Proof. unfold trailing_record. destruct (amqp st); cbn; auto. Qed.

(** X20.  On every path, whatever the request, the database and the
    broker do, app.patch('/:id') sends exactly one response and
    publishes at most one event, although its response statement and
    its publish block stand twice in the source; and what it publishes,
    if anything, is the row the update returned, under the routing key
    USER_UPDATED. *)
Theorem patch_answers_once_publishes_at_most_once env st req :
  exists l,
    effects (snd (UsersRoutes.patch req env st)) = effects st ++ l /\
    length (responses l) = 1%nat /\
    (publications l = [] \/
     exists row,
       prisma env (asked st OPrisma) = Normal row /\
       publications l = [(USER_UPDATED (ROUTING_KEYS env), row)]).
Proof.
  assert (valid_user req \/ ~ valid_user req) as [Hvalid | Hinvalid].
  { unfold valid_user.
    destruct (truthy (requested req "name")), (truthy (requested req "email")); auto;
      right; intros [? ?]; discriminate. }
  - destruct (prisma env (asked st OPrisma)) as [row|e] eqn:Hdb.
    + destruct (patch_updates env st req row Hvalid Hdb) as (st' & -> & Heff).
      eexists. split; [ exact Heff | ].
      destruct (first_record_counts env st row) as [Hr1 Hp1].
      destruct (trailing_record_counts st) as [Hr2 Hp2].
      rewrite !responses_app, !publications_app, Hr1, Hr2, Hp2. cbn.
      split; [ reflexivity | ]. rewrite !app_nil_r.
      destruct Hp1 as [-> | ->]; [ now left | right; eauto ].
    + destruct (decide (code e = Some "P2025"%string)) as [H1 | H1];
        [ | destruct (decide (code e = Some "P2002"%string)) as [H2 | H2] ].
      * rewrite (patch_known_code env st req e 404 "not found") by auto.
        eexists. split; [ reflexivity | ]. cbn. auto.
      * rewrite (patch_known_code env st req e 409 "Email already in use by another user")
          by auto.
        eexists. split; [ reflexivity | ]. cbn. auto.
      * destruct (patch_other_error env st req e Hvalid Hdb H1 H2) as (st' & -> & Heff).
        eexists. split; [ exact Heff | ].
        destruct (trailing_record_counts st) as [Hr2 Hp2].
        rewrite !responses_app, !publications_app, Hr2, Hp2. cbn. auto.
  - rewrite (patch_invalid env st req Hinvalid).
    eexists. split; [ reflexivity | ]. cbn. auto.
Qed.

(** ** The properties at work in the scenarios *)

(** Scenario A: the upstream service is down, the event of [u_1] was
    consumed before. *)
Lemma fire_failure_returns_cached_witness :
  fst (fire (KStr "u_1") Scenario.upstream_down Scenario.warmed) = Normal (Some Scenario.u_1).
Proof.
  apply (fire_failure_returns_cached Scenario.upstream_down Scenario.warmed
           (KStr "u_1") Scenario.u_1).
  - vm_compute. reflexivity.
  - right. left. exists (ReferenceError "err"). vm_compute. reflexivity.
Defined.

(** Scenario B: the upstream service is down, no event of [u_9] was
    consumed. *)
Lemma post_unavailable_is_not_answered_witness :
  exists st',
    post (Scenario.order_request "u_9") Scenario.upstream_down Scenario.warmed
    = (Throw ServiceUnavailableError, st') /\
    code ServiceUnavailableError = Some "SERVICE_UNAVAILABLE"%string /\
    responses (effects st') = responses (effects Scenario.warmed).
Proof.
  apply (post_unavailable_is_not_answered Scenario.upstream_down Scenario.warmed
           (Scenario.order_request "u_9") (KStr "u_9") Scenario.warmed).
  - repeat split.
  - reflexivity.
  - vm_compute. reflexivity.
  - right. left. exists (ReferenceError "err"). vm_compute. reflexivity.
Defined.

Lemma fetchWithBackoff_exhausted_witness :
  exists st' d1 d2 l,
    fetchWithBackoff ("http://ms_users:3001"%string, KStr "u_1") 2000
      Scenario.upstream_down Scenario.started
    = (Throw (ReferenceError "err"), st') /\
    effects st' = effects Scenario.started ++ l /\
    beats l = schedule [d1; d2].
Proof.
  apply (fetchWithBackoff_exhausted Scenario.upstream_down Scenario.started).
  intros i _. reflexivity.
Defined.

Lemma userCache_written_by_consumer_only_witness :
  userCache
    (run Scenario.upstream_down
       [PostOrder (Scenario.order_request "u_9"); GetHealth; GetOrders;
        DeleteOrder Scenario.cancel_request]
       Scenario.warmed)
  = userCache Scenario.warmed.
Proof.
  apply (proj1 (proj2 (proj2 (proj2 (proj2
           (userCache_written_by_consumer_only Scenario.upstream_down Scenario.warmed)))))).
  reflexivity.
Defined.

Lemma client_status_is_invalid_user_witness :
  let env := Scenario.upstream_answers 404 Scenario.not_found in
  let res := {| status := 404; json := Normal Scenario.not_found |} in
  let url := ("http://ms_users:3001"%string, KStr "u_2") in
  exists pauses l st2 st',
    fetchWithBackoff url 2000 env (used OBreaker Scenario.started) = (Normal (Some res), st2) /\
    callUserService (KStr "u_2") env (used OBreaker Scenario.started)
    = (Normal (Some (invalid_user res)), st2) /\
    effects st2 = effects Scenario.started ++ l /\
    beats l = schedule pauses /\ length pauses = 2%nat /\
    last l = Some (Fetch url 2000) /\
    fallbacks l = [] /\
    post (Scenario.order_request "u_2") env Scenario.started = (Normal tt, st') /\
    effects st' =
      effects Scenario.started ++ l ++
      [Respond (JNum 404) (JObj [("error", JStr "usuário inválido")]%string)].
Proof.
  apply (client_status_is_invalid_user (Scenario.upstream_answers 404 Scenario.not_found)
           Scenario.started (Scenario.order_request "u_2") (KStr "u_2") Scenario.started 2
           {| status := 404; json := Normal Scenario.not_found |}).
  - repeat split.
  - reflexivity.
  - discriminate.
  - reflexivity.
  - unfold MAX_HTTP_RETRIES. lia.
  - intros [|[|i]] Hi; [ reflexivity | reflexivity | lia ].
  - reflexivity.
  - cbn. lia.
Defined.


Lemma publish_failure_stays_local_witness :
  (exists st',
     Users.post Scenario.user_request Scenario.users_service Scenario.started = (Normal tt, st') /\
     responses (effects st') = [(JNum 201, Scenario.u_1)]) /\
  (exists st',
     post (Scenario.order_request "u_1") (Scenario.upstream_answers 200 Scenario.u_1)
       Scenario.started = (Normal tt, st') /\
     responses (effects st') = [(JNum 201, Scenario.order_row)]) /\
  (exists st',
     cancel Scenario.cancel_request Scenario.upstream_down Scenario.started = (Normal tt, st') /\
     responses (effects st') =
       [(JNum 200, JObj [("message", JStr "order cancelled"); ("id", JStr "o_V1StGX")]%string)]).
Proof.
  split; [ | split ].
  - destruct (proj1 (publish_failure_stays_local Scenario.users_service
                       (Some Scenario.broker_closed))
                Scenario.started Scenario.user_request Scenario.u_1)
      as (st' & Hrun & Heffects); [ vm_compute; reflexivity .. | ].
    exists st'. split; [ exact Hrun | ]. rewrite Heffects. vm_compute. reflexivity.
  - destruct (proj1 (proj2 (publish_failure_stays_local
                              (Scenario.upstream_answers 200 Scenario.u_1)
                              (Some Scenario.broker_closed)))
                Scenario.started (Scenario.order_request "u_1") (KStr "u_1") Scenario.started
                Scenario.u_1
                (snd (fire (KStr "u_1") (Scenario.upstream_answers 200 Scenario.u_1)
                        Scenario.started))
                Scenario.order_row)
      as (st' & Hrun & Heffects);
      [ repeat split | vm_compute; reflexivity | vm_compute; reflexivity | discriminate
      | vm_compute; reflexivity | vm_compute; reflexivity | discriminate
      | vm_compute; reflexivity | vm_compute; reflexivity | ].
    exists st'. split; [ exact Hrun | ]. rewrite Heffects. vm_compute. reflexivity.
  - destruct (proj2 (proj2 (publish_failure_stays_local Scenario.upstream_down
                              (Some Scenario.broker_closed)))
                Scenario.started Scenario.cancel_request Scenario.order_row)
      as (st' & Hrun & Heffects);
      [ vm_compute; reflexivity | discriminate | vm_compute; reflexivity
      | vm_compute; reflexivity | ].
    exists st'. split; [ exact Hrun | ]. rewrite Heffects. vm_compute. reflexivity.
Defined.

Lemma consumer_caches_under_undefined_witness :
  exists st',
    consume (Some {| content := Json (JNum 5); deliveryTag := 7 |})
      Scenario.upstream_down Scenario.started = (Normal tt, st') /\
    userCache st' = <[KUndefined := JNum 5]> (userCache Scenario.started) /\
    effects st' = effects Scenario.started ++ [Log (LConsumed None); Ack 7].
Proof.
  apply (consumer_caches_under_undefined {| content := Json (JNum 5); deliveryTag := 7 |}
           (JNum 5) Scenario.upstream_down Scenario.started).
  - reflexivity.
  - discriminate.
  - reflexivity.
Defined.


Lemma fetchWithBackoff_recovers_witness :
  let env := Scenario.upstream_answers 200 Scenario.u_1 in
  let res := {| status := 200; json := Normal Scenario.u_1 |} in
  exists st' pauses l,
    fetchWithBackoff ("http://ms_users:3001"%string, KStr "u_1") 2000 env Scenario.started
    = (Normal (Some res), st') /\
    effects st' = effects Scenario.started ++ l /\
    beats l = schedule pauses /\
    length pauses = 2%nat.
Proof.
  apply (fetchWithBackoff_recovers (Scenario.upstream_answers 200 Scenario.u_1)
           Scenario.started ("http://ms_users:3001"%string, KStr "u_1") 2000 2
           {| status := 200; json := Normal Scenario.u_1 |}).
  - unfold MAX_HTTP_RETRIES. lia.
  - intros [|[|i]] Hi; [ reflexivity | reflexivity | lia ].
  - reflexivity.
  - cbn. lia.
Defined.

Lemma post_rejects_before_any_call_witness :
  post {| body := None; params_id := "" |} Scenario.upstream_down Scenario.started =
  (Normal tt,
   with_effects
     (effects Scenario.started ++
      [Respond (JNum 400)
         (JObj [("error", JStr "userId, items[], total<number> são obrigatórios")]%string)])
     Scenario.started).
Proof.
  apply (post_rejects_before_any_call Scenario.upstream_down Scenario.started
           {| body := None; params_id := "" |}).
  intros [Htruthy _]. discriminate Htruthy.
Defined.


Lemma connectWithRetry_exhausted_witness :
  exists st' pauses l,
    Amqp.connectWithRetry "amqp://guest:guest@ms_rabbitmq:5672" Scenario.upstream_down
      Scenario.started
    = (Throw Scenario.refused, st') /\
    effects st' = effects Scenario.started ++ l /\
    beats l = schedule pauses /\
    length pauses = 9%nat.
Proof.
  apply (connectWithRetry_exhausted Scenario.upstream_down Scenario.started
           "amqp://guest:guest@ms_rabbitmq:5672" (fun _ => Scenario.refused)).
  intros i _. reflexivity.
Defined.

(** Scenario G: the database rejects every call; the upstream service
    answers at the third attempt; the broker accepts the fourth
    connection. *)
Lemma orders_post_database_error_is_thrown_witness :
  let env := Cases.database_rejects Cases.unique_error in
  let req := Scenario.order_request "u_1" in
  let st2 := snd (fire (KStr "u_1") env Scenario.started) in
  exists st',
    post req env Scenario.started = (Throw (ReferenceError "err"), st') /\
    effects st' =
      effects st2 ++
      [Db (OrderCreate (object [("id", Some (JStr ("o_" +:+ nanoid env (asked st2 ONanoid))));
                                ("userId", requested req "userId");
                                ("items", requested req "items");
                                ("total", requested req "total")]%string))
          (Throw Cases.unique_error)].
Proof.
  apply (orders_post_database_error_is_thrown
           (Cases.database_rejects Cases.unique_error) Scenario.started
           (Scenario.order_request "u_1") (KStr "u_1") Scenario.started Scenario.u_1
           (snd (fire (KStr "u_1") (Cases.database_rejects Cases.unique_error)
                   Scenario.started))
           Cases.unique_error).
  - split; [ | split ]; vm_compute; reflexivity.
  - vm_compute. reflexivity.
  - vm_compute. reflexivity.
  - discriminate.
  - vm_compute. reflexivity.
  - reflexivity.
Defined.

Lemma orders_cancel_database_error_is_thrown_witness :
  exists st',
    cancel Scenario.cancel_request (Cases.database_rejects Cases.not_found_error)
      Scenario.started
    = (Throw (ReferenceError "err"), st') /\
    effects st' =
      effects Scenario.started ++
      [Db (OrderUpdate (params_id Scenario.cancel_request)
             (JObj [("status", JStr "cancelled")]%string))
          (Throw Cases.not_found_error)].
Proof.
  apply (orders_cancel_database_error_is_thrown
           (Cases.database_rejects Cases.not_found_error) Scenario.started
           Scenario.cancel_request Cases.not_found_error).
  reflexivity.
Defined.

Lemma users_post_database_error_is_thrown_witness :
  let env := Cases.database_rejects Cases.unique_error in
  let req := Scenario.user_request in
  exists st',
    Users.post req env Scenario.started = (Throw (ReferenceError "err"), st') /\
    effects st' =
      effects Scenario.started ++
      [Db (UserCreate (object [("id", Some (JStr ("u_" +:+ nanoid env
                                                            (asked Scenario.started ONanoid))));
                               ("name", requested req "name");
                               ("email", requested req "email")]%string))
          (Throw Cases.unique_error)].
Proof.
  apply (users_post_database_error_is_thrown
           (Cases.database_rejects Cases.unique_error) Scenario.started
           Scenario.user_request Cases.unique_error).
  - split; vm_compute; reflexivity.
  - reflexivity.
Defined.

Lemma users_post_rejects_before_any_call_witness :
  Users.post {| body := None; params_id := "" |} Scenario.users_service Scenario.started =
  (Normal tt,
   with_effects
     (effects Scenario.started ++
      [Respond (JNum 400) (JObj [("error", JStr "name and email are required")]%string)])
     Scenario.started).
Proof.
  apply (users_post_rejects_before_any_call Scenario.users_service Scenario.started
           {| body := None; params_id := "" |}).
  intros [Htruthy _]. discriminate Htruthy.
Defined.

(** Scenario H: events of the users [u_1] and [u_2] are delivered while
    the upstream service is down. *)
Lemma consumed_payload_is_served_witness :
  let st := snd (consume (Some (Cases.delivery Scenario.u_1 1)) Scenario.upstream_down
                   Scenario.started) in
  fst (fire (KStr "u_1") Scenario.upstream_down st) = Normal (Some Scenario.u_1).
Proof.
  apply (consumed_payload_is_served Scenario.upstream_down Scenario.started
           (Cases.delivery Scenario.u_1 1) Scenario.u_1 "u_1").
  - reflexivity.
  - reflexivity.
  - right. left. exists (ReferenceError "err"). vm_compute. reflexivity.
Defined.

Lemma last_delivery_wins_witness :
  let env := Scenario.upstream_down in
  let first := Cases.delivery Scenario.u_1 1 in
  let second := Cases.delivery Cases.u_1_renamed 2 in
  userCache (snd (consume (Some second) env (snd (consume (Some first) env Scenario.started)))) =
  userCache (snd (consume (Some second) env Scenario.started)).
Proof.
  apply (last_delivery_wins Scenario.upstream_down Scenario.started
           (Cases.delivery Scenario.u_1 1) (Cases.delivery Cases.u_1_renamed 2)
           Scenario.u_1 Cases.u_1_renamed).
  - reflexivity.
  - discriminate.
  - reflexivity.
  - discriminate.
  - reflexivity.
  - reflexivity.
Defined.

Lemma deliveries_for_different_ids_commute_witness :
  let env := Scenario.upstream_down in
  let first := Cases.delivery Scenario.u_1 1 in
  let second := Cases.delivery Cases.u_2 2 in
  userCache (snd (consume (Some second) env (snd (consume (Some first) env Scenario.started)))) =
  userCache (snd (consume (Some first) env (snd (consume (Some second) env Scenario.started)))).
Proof.
  apply (deliveries_for_different_ids_commute Scenario.upstream_down Scenario.started
           (Cases.delivery Scenario.u_1 1) (Cases.delivery Cases.u_2 2)
           Scenario.u_1 Cases.u_2).
  - reflexivity.
  - discriminate.
  - reflexivity.
  - discriminate.
  - reflexivity.
  - reflexivity.
  - discriminate.
Defined.


(** Scenario I: the users service renames user [u_1]. *)
Lemma patch_answers_then_throws_witness :
  let env := Cases.all_well Cases.u_1_renamed in
  exists st',
    UsersRoutes.patch Cases.patch_request env Scenario.started
    = (Throw (ReferenceError "updated"), st') /\
    effects st' =
      effects Scenario.started ++ first_record env Scenario.started Cases.u_1_renamed ++
      [Respond (JNum 200) Cases.u_1_renamed] ++ trailing_record Scenario.started.
Proof.
  apply (patch_answers_then_throws (Cases.all_well Cases.u_1_renamed) Scenario.started
           Cases.patch_request Cases.u_1_renamed).
  - split; vm_compute; reflexivity.
  - reflexivity.
Defined.

Lemma patch_database_errors_witness :
  UsersRoutes.patch Cases.patch_request (Cases.database_rejects Cases.not_found_error)
    Scenario.started =
  (Normal tt,
   with_effects
     (effects Scenario.started ++
      [Respond (JNum 404) (JObj [("error", JStr "not found")]%string)])
     (used OPrisma Scenario.started)).
Proof.
  apply (patch_database_errors (Cases.database_rejects Cases.not_found_error)
           Scenario.started Cases.patch_request Cases.not_found_error).
  - split; vm_compute; reflexivity.
  - reflexivity.
  - reflexivity.
Defined.
